(** * Verification of shadie's chromosome builders and reproduction scripts

    Shallow embedding of:
    - [shadie/chromosome/src/classes.py]: [Chromosome], [ChromosomeRandom],
      [ChromosomeExplicit] (the builders used by the factory functions);
    - [shadie/chromosome/build.py]: the older [ChromosomeExplicit] and its
      [mutations] list;
    - [shadie/reproduction/bryobase.py], [optimized/pteridophyte.py] and
      [base.py]: mutation-rate setup, callback ids, the final late() event;
    - [shadie/sims/format.py]: rendering of event dictionaries. *)

From Stdlib Require Import QArith Qround ZArith Lia Lqa Ascii Sorted.
From stdpp Require Import base list sets strings pretty.

Open Scope Z_scope.

(** ** Data model *)

(** A [MutationType]; [mut_id] stands for Python object identity. *)
Record MutationType := {
  mut_id : nat;
  mut_name : string;
  affects_haploid : bool;
  affects_diploid : bool;
}.

(** An [ElementType]; [el_id] stands for Python object identity. *)
Record ElementType := {
  el_id : nat;
  el_name : string;
  el_altname : string;
  mlist : list MutationType;
  is_coding : bool;
}.

(** One row of the pandas DataFrame
    [columns=['name', 'start', 'end', 'eltype', 'script', 'coding']]. *)
Record Row := {
  row_name : string;
  row_start : Z;
  row_end : Z;
  row_eltype : string;
  row_script : ElementType;
  row_coding : bool;
}.

(** The DataFrame: rows in row order, each with its index label. *)
Definition Frame := list (Z * Row).

(** [df.loc[idx] = row]: an existing label is overwritten in place, a new
    label is appended at the end (pandas enlargement). *)
Fixpoint frame_set (idx : Z) (r : Row) (df : Frame) : Frame :=
  match df with
  | [] => [(idx, r)]
  | (k, r') :: t => if Z.eqb k idx then (k, r) :: t else (k, r') :: frame_set idx r t
  end.

(** [df.loc[idx]] as a lookup of the first row labelled [idx]. *)
Fixpoint frame_get (idx : Z) (df : Frame) : option Row :=
  match df with
  | [] => None
  | (k, r) :: t => if Z.eqb k idx then Some r else frame_get idx t
  end.

(** The row tuple [(ele.altname, start, end, ele.name, ele, ele.is_coding)]. *)
Definition mk_row (ele : ElementType) (start end_ : Z) : Row := {|
  row_name := el_altname ele;
  row_start := start;
  row_end := end_;
  row_eltype := el_name ele;
  row_script := ele;
  row_coding := is_coding ele;
|}.

(** ** Python's [sorted(..., key=f)] and pandas' [sort_index]: a stable
    insertion sort (equal keys keep their input order). *)
Section StableSort.
Context {A : Type} (key : A -> Z).

Fixpoint ins_by (x : A) (l : list A) : list A :=
  match l with
  | [] => [x]
  | y :: t => if Z.leb (key x) (key y) then x :: y :: t else y :: ins_by x t
  end.

Fixpoint sort_by (l : list A) : list A :=
  match l with
  | [] => []
  | x :: t => ins_by x (sort_by t)
  end.
End StableSort.

(** ** Explicit strategy (classes.py, [ChromosomeExplicit.__init__]) *)

(** The input dict: [(start, end) -> ElementType | None], in insertion order. *)
Definition ExplicitData := list ((Z * Z) * option ElementType).

Record ChromosomeModel := {
  cm_genome_size : Z;
  cm_data : Frame;
}.

(** [for key in sorted(data, key=lambda x: x[0]): ... self.data.loc[start] = ...] *)
Definition explicit_fill (data : ExplicitData) (df : Frame) : Frame :=
  fold_left
    (fun acc '((start, end_), v) =>
       match v with
       | Some e => frame_set start (mk_row e start end_) acc
       | None => acc
       end)
    (sort_by (fun p => fst (fst p)) data) df.

Definition max_list (l : list Z) : option Z :=
  match l with
  | [] => None
  | x :: t => Some (fold_left Z.max t x)
  end.

(** [genome_size = 1 + max(i[1] for i in data.keys())] unless given; the
    [max] of an empty sequence raises, modelled by [None]. The two type
    assertions hold by the types of [ExplicitData]. *)
Definition chromosome_explicit (data : ExplicitData) (genome_size : option Z)
  : option ChromosomeModel :=
  let gs :=
    match genome_size with
    | Some g => Some g
    | None => option_map (fun m => 1 + m) (max_list (map (fun p => snd (fst p)) data))
    end in
  match gs with
  | None => None
  | Some g => Some {| cm_genome_size := g; cm_data := explicit_fill data [] |}
  end.

(** ** Explicit strategy (build.py): the [mutations] list.

    [for element in data.values(): for mutation in element.mlist:
       if mutation.name not in mutations: mutations.append(mutation.name)];
    a [None] value raises [AttributeError], modelled by [None]. *)
Definition add_mutation_name (acc : list string) (m : MutationType) : list string :=
  if decide (mut_name m ∈ acc) then acc else acc ++ [mut_name m].

Fixpoint build_mutations (vals : list (option ElementType)) (acc : list string)
  : option (list string) :=
  match vals with
  | [] => Some acc
  | None :: _ => None
  | Some e :: t => build_mutations t (fold_left add_mutation_name (mlist e) acc)
  end.

Record BuildChromosome := {
  bc_genome_size : Z;
  bc_data : Frame;
  bc_mutations : list string;
}.

(** build.py [ChromosomeExplicit.__init__]:
    [genome_size=max([i[1] + 1 for i in data.keys()])]. *)
Definition build_chromosome_explicit (data : ExplicitData) : option BuildChromosome :=
  match max_list (map (fun p => snd (fst p) + 1) data) with
  | None => None
  | Some g =>
      match build_mutations (map snd data) [] with
      | None => None
      | Some muts =>
          Some {| bc_genome_size := g; bc_data := explicit_fill data [];
                  bc_mutations := muts |}
      end
  end.

(** ** Python exceptions and the random generator *)

Inductive PyErr := ValueError | ZeroDivisionError | AssertionError | IndexError.

(** The numpy [Generator] as the streams of values its calls return:
    standard exponential variates (scaled by [exponential]), Poisson
    counts, Dirichlet weight vectors and [choice] indices. *)
Record Rng := {
  exps : list Q;
  poissons : list Z;
  dirichlets : list (list Q);
  choices : list nat;
}.

(** Outcome of a computation: a value with the remaining generator, a
    raised exception, or [Stuck] when the streams do not supply a draw the
    call needs (the draws run out, or a value outside the distribution's
    support is offered). *)
Inductive outcome (A : Type) :=
  | Ok (a : A) (g : Rng)
  | Raise (e : PyErr)
  | Stuck.
Arguments Ok {A}. Arguments Raise {A}. Arguments Stuck {A}.

Definition M (A : Type) := Rng -> outcome A.

Definition ret {A} (a : A) : M A := fun g => Ok a g.
Definition bind {A B} (c : M A) (f : A -> M B) : M B :=
  fun g => match c g with
           | Ok a g' => f a g'
           | Raise e => Raise e
           | Stuck => Stuck
           end.
Definition raise {A} (e : PyErr) : M A := fun _ => Raise e.

Notation "'let!' x := c 'in' k" := (bind c (fun x => k))
  (at level 200, x name, c at level 100, k at level 200).

(** Python [int()] of a float: truncation toward zero. *)
Definition py_int (q : Q) : Z :=
  if Qle_bool 0 q then Qfloor q else - Qfloor (- q).

(** [rng.exponential(scale)]: [ValueError] for a negative scale, otherwise
    [scale * standard_exponential()]. *)
Definition exponential (scale : Q) : M Q := fun g =>
  if Qlt_le_dec scale 0 then Raise ValueError else
  match exps g with
  | u :: t => if Qle_bool 0 u
              then Ok (scale * u)%Q {| exps := t; poissons := poissons g;
                                       dirichlets := dirichlets g; choices := choices g |}
              else Stuck
  | [] => Stuck
  end.

(** [rng.poisson(lam)]: [ValueError] for a negative mean, [0] for mean 0. *)
Definition poisson (lam : Q) : M Z := fun g =>
  if Qlt_le_dec lam 0 then Raise ValueError else
  if Qeq_bool lam 0 then Ok 0 g else
  match poissons g with
  | k :: t => if Z.leb 0 k
              then Ok k {| exps := exps g; poissons := t;
                           dirichlets := dirichlets g; choices := choices g |}
              else Stuck
  | [] => Stuck
  end.

Definition Qsum (l : list Q) : Q := fold_right Qplus 0%Q l.

(** [rng.dirichlet(np.ones(m))]: [m] non-negative weights summing to 1;
    [np.ones] of a negative size raises. *)
Definition dirichlet (m : Z) : M (list Q) := fun g =>
  if Z.ltb m 0 then Raise ValueError else
  match dirichlets g with
  | ws :: t =>
      if Nat.eqb (length ws) (Z.to_nat m) && forallb (Qle_bool 0) ws
         && Qeq_bool (Qsum ws) 1
      then Ok ws {| exps := exps g; poissons := poissons g;
                    dirichlets := t; choices := choices g |}
      else Stuck
  | [] => Stuck
  end.

(** [rng.choice(pool)] for a list pool; an empty pool raises. *)
Definition choice {A} (pool : list A) : M A := fun g =>
  match pool with
  | [] => Raise ValueError
  | _ =>
      match choices g with
      | i :: t =>
          match pool !! i with
          | Some x => Ok x {| exps := exps g; poissons := poissons g;
                              dirichlets := dirichlets g; choices := t |}
          | None => Stuck
          end
      | [] => Stuck
      end
  end.

(** ** Random strategy (classes.py, [ChromosomeRandom]) *)

(** An element-type argument: a single [ElementType] or a list of them. *)
Inductive Pool :=
  | Single (e : ElementType)
  | Many (es : list ElementType).

(** The attributes set by [ChromosomeRandom.__init__]. *)
Record RandomConfig := {
  rc_genome_size : Z;     (** [self.genome_size = int(genome_size - 1)] *)
  rc_gene_size : Z;       (** [self.gene_size = genome_size] *)
  rc_intron : Pool;
  rc_exon : Pool;
  rc_noncds : ElementType;
  rc_intron_scale : Z;
  rc_cds_scale : Z;
  rc_noncds_scale : Z;
}.

Definition chromosome_random_init (genome_size : Z) (intron exon : Pool)
  (noncds : ElementType) (intron_scale cds_scale noncds_scale : Z) : RandomConfig := {|
  rc_genome_size := genome_size - 1;
  rc_gene_size := genome_size;
  rc_intron := intron;
  rc_exon := exon;
  rc_noncds := noncds;
  rc_intron_scale := intron_scale;
  rc_cds_scale := cds_scale;
  rc_noncds_scale := noncds_scale;
|}.

(** [get_noncds_span]: [int(self.rng.exponential(scale=self.noncds_scale))]. *)
Definition get_noncds_span (c : RandomConfig) : M Z :=
  let! x := exponential (inject_Z (rc_noncds_scale c)) in ret (py_int x).

(** [splits[-1] = cds_span - sum(splits[:-1])]; an empty array raises. *)
Definition fix_last (cds_span : Z) (splits : list Z) : option (list Z) :=
  match splits with
  | [] => None
  | _ => Some (removelast splits ++ [cds_span - fold_right Z.add 0 (removelast splits)])
  end.

(** One pass of [while True:] in [get_cds_spans]: draw, scale, truncate,
    fix the last entry, and test [all(i > 3 for i in splits)]. The loop
    runs once per Dirichlet draw, so [fuel] bounds the passes. *)
Fixpoint split_loop (fuel : nat) (n_introns cds_span : Z) : M (list Z) :=
  match fuel with
  | O => fun _ => Stuck
  | S fuel' =>
      let! ws := dirichlet (n_introns * 2 - 1) in
      match fix_last cds_span (map (fun w => py_int (w * inject_Z cds_span)%Q) ws) with
      | None => raise IndexError
      | Some splits =>
          if forallb (fun i => Z.ltb 3 i) splits then ret splits
          else split_loop fuel' n_introns cds_span
      end
  end.

(** Python's [/] on ints; division by zero raises. *)
Definition py_div (a b : Z) : M Q :=
  if Z.eqb b 0 then raise ZeroDivisionError else ret (inject_Z a / inject_Z b)%Q.

(** [get_cds_spans]: the line [length_scale = self.gene_size,] replaces the
    [length_scale] argument (which [run] passes as [self.cds_scale]) by a
    one-element tuple holding [self.gene_size], the scale numpy then uses. *)
Definition get_cds_spans (fuel : nat) (c : RandomConfig) : M (list Z) :=
  let! x := exponential (inject_Z (rc_gene_size c)) in
  let cds_span := py_int x in
  let! lam := py_div cds_span (rc_intron_scale c) in
  let! k := poisson lam in
  let n_introns := k in
  if negb (Z.eqb n_introns 0) then split_loop fuel n_introns cds_span
  else ret [cds_span].

(** build.py [ChromosomeRandom.get_cds_spans]: the same draws as above
    with the scales passed in, and no rejection loop around the splits. *)
Definition build_get_cds_spans (length_scale intron_scale : Z) : M (list Z) :=
  let! x := exponential (inject_Z length_scale) in
  let cds_span := py_int x in
  let! lam := py_div cds_span intron_scale in
  let! k := poisson lam in
  let n_introns := k in
  if negb (Z.eqb n_introns 0) then
    let! ws := dirichlet (n_introns * 2 - 1) in
    match fix_last cds_span (map (fun w => py_int (w * inject_Z cds_span)%Q) ws) with
    | None => raise IndexError
    | Some splits => ret splits
    end
  else ret [cds_span].

Definition choose (p : Pool) : M ElementType :=
  match p with
  | Single e => ret e
  | Many es => choice es
  end.

(** [for enum, span in enumerate(spans): ...]: even segments are exons. *)
Fixpoint enter_cds (c : RandomConfig) (enum : nat) (spans : list Z) (idx : Z) (df : Frame)
  : M (Z * Frame) :=
  match spans with
  | [] => ret (idx, df)
  | span :: rest =>
      let! ele := choose (if Nat.even enum then rc_exon c else rc_intron c) in
      enter_cds c (S enum) rest (idx + span + 1)
        (frame_set idx (mk_row ele (idx + 1) (idx + span + 1)) df)
  end.

(** The [while 1:] loop of [run]; [fuel] bounds its iterations. *)
Fixpoint run_loop (fuel : nat) (c : RandomConfig) (idx : Z) (df : Frame) : M Frame :=
  match fuel with
  | O => fun _ => Stuck
  | S fuel' =>
      let! span := get_noncds_span c in
      let df1 := frame_set idx
                   (mk_row (rc_noncds c) (idx + 1) (Z.min (idx + 1 + span) (rc_genome_size c))) df in
      let idx1 := idx + span + 1 in
      let! spans := get_cds_spans fuel' c in
      if Z.ltb (rc_genome_size c) (idx1 + fold_right Z.add 0 spans + Z.of_nat (length spans))
      then ret df1
      else
        let! p := enter_cds c 0 spans idx1 df1 in
        run_loop fuel' c (fst p) (snd p)
  end.

(** [run]: the loop from [idx = 0] on an empty frame, then
    [self.data = self.data.sort_index()]. The arguments of [run] are
    overwritten by the attributes and play no part. *)
Definition run (fuel : nat) (c : RandomConfig) : M Frame :=
  let! df := run_loop fuel c 0 [] in ret (sort_by fst df).

(** ** Fixed-pattern strategy (classes.py, [Chromosome]); the three element
    types are the package defaults [NONCDS], [EXON], [INTRON]. *)
Definition chromosome_default (NONCDS EXON INTRON : ElementType) : ChromosomeModel := {|
  cm_genome_size := 10001;
  cm_data :=
    frame_set 8001 (mk_row NONCDS 8001 10000)
      (frame_set 6001 (mk_row EXON 6001 8000)
        (frame_set 4001 (mk_row INTRON 4001 6000)
          (frame_set 2001 (mk_row EXON 2001 4000)
            (frame_set 0 (mk_row NONCDS 0 2000) []))));
|}.

(** ** Mutation rates of the two-stage composers *)

(** Python truthiness of an [Optional[float]]. *)
Definition truthy (x : option Q) : bool :=
  match x with
  | None => false
  | Some q => negb (Qeq_bool q 0)
  end.

Record StageRates := {
  spo_mutation_rate : option Q;
  gam_mutation_rate : option Q;
}.

(** bryobase.py [Bryophyte._set_mutation_rates]; [base_rate] is
    [self.model._mutation_rate]. *)
Definition bryo_set_mutation_rates (base_rate : Q) (r : StageRates) : PyErr + StageRates :=
  if truthy (spo_mutation_rate r) || truthy (gam_mutation_rate r) then
    let require_spo := bool_decide (spo_mutation_rate r <> None) in
    let require_gam := bool_decide (gam_mutation_rate r <> None) in
    if require_gam && require_spo then inr r else inl AssertionError
  else
    inr {| spo_mutation_rate := Some ((1#2) * base_rate)%Q;
           gam_mutation_rate := Some ((1#2) * base_rate)%Q |}.

(** optimized/pteridophyte.py [Pteridophyte.run], the mutation-rate block. *)
Definition pter_set_mutation_rates (base_rate : Q) (r : StageRates) : PyErr + StageRates :=
  if truthy (spo_mutation_rate r) || truthy (gam_mutation_rate r) then
    if truthy (spo_mutation_rate r) && truthy (gam_mutation_rate r) then inr r
    else inl AssertionError
  else
    inr {| spo_mutation_rate := Some ((1#2) * base_rate)%Q;
           gam_mutation_rate := Some ((1#2) * base_rate)%Q |}.

(** ** Symbolic callback ids *)

(** A [model.fitness(idx=..., mutation=..., scripts=..., comment=...)] event. *)
Record FitnessEvent := {
  fe_idx : option string;
  fe_mutation : string;
  fe_scripts : string;
  fe_comment : string;
}.

(** [str("s" + str(idx))] *)
Definition sidx (idx : nat) : string := "s" +:+ pretty idx.

Record CallbackState := {
  cs_idx : nat;
  cs_fitness : list FitnessEvent;
  cs_activate : list string;
  cs_deactivate : list string;
}.

(** One iteration of the loop over [self.model.chromosome.mutations] in
    [Bryophyte._add_shared_mode_scripts] (bryobase.py). *)
Definition bryo_callback_step (st : CallbackState) (mut : MutationType) : CallbackState :=
  let idx := S (cs_idx st) in
  let s := sidx idx in
  {| cs_idx := idx;
     cs_fitness := cs_fitness st ++
       [{| fe_idx := Some s; fe_mutation := mut_name mut;
           fe_scripts := "return 1 + mut.selectionCoeff";
           fe_comment := "gametophytes have no dominance effects" |}];
     cs_activate := cs_activate st ++ [s +:+ ".active = 1;"];
     cs_deactivate := cs_deactivate st ++ [s +:+ ".active = 0;"] |}.

Definition init_callbacks : CallbackState :=
  {| cs_idx := 4; cs_fitness := []; cs_activate := []; cs_deactivate := [] |}.

Definition bryo_shared_callbacks (muts : list MutationType) : CallbackState :=
  fold_left bryo_callback_step muts init_callbacks.

(** The same loop in [Pteridophyte.heterosporous] and
    [Pteridophyte.homosporous]: [i = 4; for mut in mutations: i = i + 1;
    idx = str("s" + str(i)); ... self.model.fitness(idx=idx, mutation=mut, ...)];
    there the mutations are the names kept by the chromosome. *)
Definition pter_callback_step (st : CallbackState) (mut : string) : CallbackState :=
  let i := S (cs_idx st) in
  let idx := sidx i in
  {| cs_idx := i;
     cs_fitness := cs_fitness st ++
       [{| fe_idx := Some idx; fe_mutation := mut;
           fe_scripts := "return 1 + mut.selectionCoeff";
           fe_comment := "gametophytes have no dominance effects" |}];
     cs_activate := cs_activate st ++ [idx +:+ ".active = 1;"];
     cs_deactivate := cs_deactivate st ++ [idx +:+ ".active = 0;"] |}.

Definition pter_callbacks (muts : list string) : CallbackState :=
  fold_left pter_callback_step muts init_callbacks.

(** ** The terminal late() event *)

Record LateEvent := {
  le_time : option Z;
  le_scripts : list string;
  le_comment : string;
}.

(** base.py [ReproductionBase._write_trees_file]. [file_in] is [None] when
    no prior run is loaded, and otherwise carries the loaded tree
    sequence's [max_root_time]. *)
Definition write_trees_file (sim_time gens_per_lifecycle : Z) (file_in : option Q)
  (file_out : string) : LateEvent :=
  let endtime := sim_time * gens_per_lifecycle + 1 in
  let scripts := ["sim.treeSeqRememberIndividuals(sim.subpopulations.individuals)";
                  "sim.treeSeqOutput('" +:+ file_out +:+ "', metadata = METADATA)"] in
  match file_in with
  | Some sim_start =>
      let resched_end := py_int (inject_Z endtime + sim_start)%Q in
      {| le_time := Some resched_end; le_scripts := scripts;
         le_comment := "end of sim; save .trees file" |}
  | None =>
      {| le_time := Some endtime; le_scripts := scripts;
         le_comment := "end of sim; save .trees file" |}
  end.

(** optimized/pteridophyte.py [Pteridophyte.end_sim]; [_sim_time] is the
    value the API passes in. *)
Definition pter_end_sim (sim_time_ : Z) (file_out : string) : LateEvent :=
  let endtime := sim_time_ + 1 in
  {| le_time := Some endtime;
     le_scripts := ["sim.treeSeqRememberIndividuals(sim.subpopulations.individuals)" +:+ "
";
                    "sim.treeSeqOutput('" +:+ file_out +:+ "')"];
     le_comment := "end of sim; save .trees file" |}.

(** ** Rendering of events (sims/format.py) *)

Module Format.

(** Python's [str.lstrip(chars)] and [str.rstrip(chars)] for a set of
    characters given as a predicate. *)
Fixpoint lstrip (p : Ascii.ascii -> bool) (s : string) : string :=
  match s with
  | EmptyString => EmptyString
  | String c t => if p c then lstrip p t else s
  end.

Definition rstrip (p : Ascii.ascii -> bool) (s : string) : string :=
  String.rev (lstrip p (String.rev s)).

Definition strip (p : Ascii.ascii -> bool) (s : string) : string :=
  rstrip p (lstrip p s).

(** The characters below 256 that [str.strip()] removes ([str.isspace]). *)
Definition is_space (c : Ascii.ascii) : bool :=
  bool_decide (c ∈ [" "%char; "009"%char; "010"%char; "011"%char; "012"%char; "013"%char;
                    "028"%char; "029"%char; "030"%char; "031"%char; "133"%char; "160"%char]).

Definition is_char (d : Ascii.ascii) (c : Ascii.ascii) : bool := bool_decide (c = d).

Definition ends_with_brace (s : string) : bool :=
  match String.rev s with
  | String c _ => bool_decide (c = "}"%char)
  | EmptyString => false
  end.

Fixpoint join (sep : string) (l : list string) : string :=
  match l with
  | [] => ""
  | [x] => x
  | x :: t => x +:+ sep +:+ join sep t
  end.

(** A [scripts] argument: one string or a list of statements. *)
Inductive Scripts :=
  | Block (s : string)
  | Stmts (l : list string).

(** [clean_scripts] *)
Definition clean_scripts (scripts : Scripts) : string :=
  match scripts with
  | Stmts l =>
      join "
    " (map (fun i => strip (is_char ";") i +:+ ";") l)
  | Block s =>
      let s := strip is_space s in
      if ends_with_brace s then s else strip (is_char ";") s +:+ ";"
  end.

(** [event['time'] = f"{event['time']} " if event['time'] else ""]:
    the [time] field is [None] or an int, whose truthiness is [t <> 0]. *)
Definition format_time (time : option Z) : string :=
  match time with
  | Some t => if Z.eqb t 0 then "" else pretty t +:+ " "
  | None => ""
  end.

(** [event['comment'] = "// " + c.lstrip("//").strip() + "\n" if c else ""] *)
Definition format_comment (comment : string) : string :=
  match comment with
  | EmptyString => ""
  | _ => "// " +:+ strip is_space (lstrip (is_char "/") comment) +:+ "
"
  end.

(** The [LATE] template filled with the formatted fields. *)
Definition render_late (time : option Z) (scripts : Scripts) (comment : string) : string :=
  "
" +:+ format_comment comment +:+ format_time time
    +:+ "late() { // executes after selection occurs
    " +:+ clean_scripts scripts +:+ "
}
".

(** The [EARLY] template filled with the formatted fields. *)
Definition render_early (time : option Z) (scripts : Scripts) (comment : string) : string :=
  "
" +:+ format_comment comment +:+ format_time time
    +:+ "early() { // executes after offspring are generated
    " +:+ clean_scripts scripts +:+ "
}
".

End Format.

(** ** Interval invariants *)

(** No two rows of a frame overlap: [i.end < j.start] or [j.end < i.start]. *)
Definition intervals_disjoint (df : Frame) : Prop :=
  forall (i j : nat) (pi pj : Z * Row), i <> j -> df !! i = Some pi -> df !! j = Some pj ->
    row_end (snd pi) < row_start (snd pj) \/ row_end (snd pj) < row_start (snd pi).

(** Every row ends at most at [genome_size - 1]. *)
Definition ends_within (df : Frame) (genome_size : Z) : Prop :=
  Forall (fun p => row_end (snd p) <= genome_size - 1) df.

(** The rows labelled [s]. *)
Definition rows_at (s : Z) (df : Frame) : Frame := List.filter (fun p => Z.eqb (fst p) s) df.

(** The row the explicit loop leaves at label [s], starting from [acc]:
    the last non-[None] entry of [l] whose start is [s]. *)
Definition explicit_row_at (s : Z) (l : ExplicitData) (acc : option Row) : option Row :=
  fold_left
    (fun acc '((start, end_), v) =>
       match v with
       | Some e => if Z.eqb start s then Some (mk_row e start end_) else acc
       | None => acc
       end) l acc.

Definition opt_rows (s : Z) (o : option Row) : Frame :=
  match o with Some r => [(s, r)] | None => [] end.

(** build.py [ChromosomeRandom.__init__]: [mutations] over
    [[self.intron, self.exon, self.noncds]], by name. *)
Definition build_random_mutations (intron exon noncds : ElementType) : option (list string) :=
  build_mutations (map Some [intron; exon; noncds]) [].

(** The names of the mutation types of a sequence of element types, in
    order, with repeats. *)
Definition mutation_names (es : list ElementType) : list string :=
  map mut_name (concat (map mlist es)).

(** A list without repeats, each element kept at its first occurrence. *)
Definition first_seen (l : list string) : list string := reverse (remove_dups (reverse l)).

(** ** Sample element types, as built by [shadie.mtype] and [shadie.etype] *)

Definition sample_mut_a : MutationType :=
  {| mut_id := 1; mut_name := "m1"; affects_haploid := true; affects_diploid := true |}.
Definition sample_mut_b : MutationType :=
  {| mut_id := 2; mut_name := "m1"; affects_haploid := true; affects_diploid := false |}.
Definition sample_mut_c : MutationType :=
  {| mut_id := 3; mut_name := "m2"; affects_haploid := false; affects_diploid := true |}.

(** An element type listing two distinct mutation types with one name. *)
Definition sample_elem_dup : ElementType :=
  {| el_id := 10; el_name := "g1"; el_altname := "exon"; mlist := [sample_mut_a; sample_mut_b];
     is_coding := true |}.
Definition sample_elem : ElementType :=
  {| el_id := 11; el_name := "g2"; el_altname := "intron"; mlist := [sample_mut_c; sample_mut_a];
     is_coding := true |}.
Definition sample_noncds : ElementType :=
  {| el_id := 12; el_name := "g3"; el_altname := "noncds"; mlist := [sample_mut_a];
     is_coding := false |}.

(** The loop state of [ChromosomeRandom.run]: every row is labelled below
    [idx] and ends at most at [idx] and at [bound]; labels increase along
    the frame; no two rows overlap. *)
Definition frame_inv (idx bound : Z) (df : Frame) : Prop :=
  Forall (fun p => fst p < idx /\ row_end (snd p) <= idx /\ row_end (snd p) <= bound) df /\
  StronglySorted (fun p q => fst p < fst q) df /\
  intervals_disjoint df.

(** A generator whose streams hold only the given exponential draws. *)
Definition exp_stream (us : list Q) : Rng :=
  {| exps := us; poissons := []; dirichlets := []; choices := [] |}.

(** The rows of a frame follow each other with no gap: the row after the
    position [e] is labelled [e] and starts at [e + 1], and the next row
    follows its end in the same way. *)
Fixpoint chain (e : Z) (df : Frame) : Prop :=
  match df with
  | [] => True
  | (k, r) :: t => k = e /\ row_start r = e + 1 /\ chain (row_end r) t
  end.

(** The end of the last row of a frame ([e] for an empty frame). *)
Fixpoint last_end (e : Z) (df : Frame) : Z :=
  match df with
  | [] => e
  | (_, r) :: t => last_end (row_end r) t
  end.

(** The loop state of [ChromosomeRandom.run] seen as a tiling: the rows
    chain from position 0 up to [idx] and none of them is reversed. *)
Definition run_shape (idx : Z) (df : Frame) : Prop :=
  chain 0 df /\ last_end 0 df = idx /\
  Forall (fun p => row_start (snd p) <= row_end (snd p)) df.

(** A sample random configuration: genome size 100, a single exon and
    intron type, [intron_scale = cds_scale = 1000], [noncds_scale = 10];
    and draws for one coding block of 20 bp between two non-coding spans. *)
Definition sample_random_config : RandomConfig :=
  chromosome_random_init 100 (Single sample_elem) (Single sample_elem_dup) sample_noncds 1000 1000 10.

Definition sample_rng : Rng :=
  {| exps := [1%Q; (1#5)%Q; 1%Q; 1%Q]; poissons := [0; 0]; dirichlets := []; choices := [] |}.

Definition sample_random_rows : Frame :=
  [(0, mk_row sample_noncds 1 11); (11, mk_row sample_elem_dup 12 32); (32, mk_row sample_noncds 33 43)].

(** ** Terminal characters and ratio conversions *)

(** [s.endswith(c)] for one character [c]. *)
Definition ends_in (c : Ascii.ascii) (s : string) : bool :=
  match String.rev s with
  | String d _ => bool_decide (d = c)
  | EmptyString => false
  end.

(** [n] slash characters. *)
Fixpoint slashes (n : nat) : string :=
  match n with
  | O => EmptyString
  | S n' => String "/" (slashes n')
  end.

(** bryobase.py [BryophyteDioicous._set_gam_female_to_male_ratio_as_float]:
    [sum_ratio = sum(t); float_ratio = t[0] / sum_ratio], floats read as
    rationals; [t[0]] of an empty tuple raises before the division. *)
Definition bryo_gam_ratio (t : list Q) : PyErr + Q :=
  let sum_ratio := Qsum t in
  match t with
  | [] => inl IndexError
  | x :: _ => if Qeq_bool sum_ratio 0 then inl ZeroDivisionError else inr (x / sum_ratio)%Q
  end.

(** optimized/pteridophyte.py [Pteridophyte.run]: [r[0] / (r[0] + r[1])],
    used for both the sporophyte and the gametophyte ratio. *)
Definition pter_ratio (r : Q * Q) : PyErr + Q :=
  let s := (fst r + snd r)%Q in
  if Qeq_bool s 0 then inl ZeroDivisionError else inr (fst r / s)%Q.

(** A generator whose draws take the Dirichlet branch of [get_cds_spans]. *)
Definition sample_split_rng : Rng :=
  {| exps := [(1#5)%Q]; poissons := [2]; dirichlets := [[(1#2)%Q; (1#4)%Q; (1#4)%Q]];
     choices := [] |}.

Definition empty_rng : Rng :=
  {| exps := []; poissons := []; dirichlets := []; choices := [] |}.

(** An element drawn for a pool: the single element, or one of the list. *)
Definition in_pool (p : Pool) (e : ElementType) : Prop :=
  match p with
  | Single x => e = x
  | Many es => In e es
  end.

(** The rows of one gene entered by [run], from segment [enum] on: even
    segments from the exon pool, odd ones from the intron pool. *)
Fixpoint gene_from (c : RandomConfig) (enum : nat) (rows : Frame) : Prop :=
  match rows with
  | [] => True
  | p :: t =>
      in_pool (if Nat.even enum then rc_exon c else rc_intron c) (row_script (snd p)) /\
      gene_from c (S enum) t
  end.

(** The row layout of a random chromosome: non-coding rows, each but the
    last followed by one gene with an odd number of segments. *)
Inductive layout (c : RandomConfig) : Frame -> Prop :=
  | layout_end (p : Z * Row) :
      row_script (snd p) = rc_noncds c -> layout c [p]
  | layout_gene (p : Z * Row) (gene rest : Frame) :
      row_script (snd p) = rc_noncds c -> gene_from c 0 gene -> Nat.Odd (length gene) ->
      layout c rest -> layout c (p :: gene ++ rest).

(** * Proofs *)

(** ** Mutation rates *)

(** C5. [Bryophyte._set_mutation_rates] tests the rates by truthiness: a
    sporophyte rate of [0.0] with no gametophyte rate raises nothing and is
    overwritten by half the base rate; [Pteridophyte.run] rejects a pair of
    supplied rates when one of them is [0.0]. *)
Theorem mutation_rates_zero_rate :
  bryo_set_mutation_rates (1#100000000)
    {| spo_mutation_rate := Some 0%Q; gam_mutation_rate := None |}
  = inr {| spo_mutation_rate := Some (1#200000000)%Q;
           gam_mutation_rate := Some (1#200000000)%Q |}
  /\ pter_set_mutation_rates (1#100000000)
    {| spo_mutation_rate := Some (1#100000000)%Q; gam_mutation_rate := Some 0%Q |}
  = inl AssertionError.
Proof. split; vm_compute; reflexivity. Qed.

(** ** Callback ids *)

Lemma sidx_inj (a b : nat) : sidx a = sidx b -> a = b.
Proof.
  unfold sidx. simpl. intros H. injection H as H.
  exact (pretty_nat_inj a b H).
Qed.

Section Callbacks.
Variable T : Type.
Variable step : CallbackState -> T -> CallbackState.
Variable name_of : T -> string.
Hypothesis step_eq : forall st x,
  step st x =
    {| cs_idx := S (cs_idx st);
       cs_fitness := cs_fitness st ++
         [{| fe_idx := Some (sidx (S (cs_idx st))); fe_mutation := name_of x;
             fe_scripts := "return 1 + mut.selectionCoeff";
             fe_comment := "gametophytes have no dominance effects" |}];
       cs_activate := cs_activate st ++ [sidx (S (cs_idx st)) +:+ ".active = 1;"];
       cs_deactivate := cs_deactivate st ++ [sidx (S (cs_idx st)) +:+ ".active = 0;"] |}.

Lemma callbacks_fold_ids (muts : list T) (st : CallbackState) :
  cs_idx (fold_left step muts st) = (cs_idx st + length muts)%nat /\
  map fe_idx (cs_fitness (fold_left step muts st)) =
    map fe_idx (cs_fitness st) ++ map (fun j => Some (sidx j)) (seq (S (cs_idx st)) (length muts)).
Proof.
  revert st. induction muts as [|x muts IH]; intros st; simpl.
  - split; [lia | by rewrite app_nil_r].
  - destruct (IH (step st x)) as [H1 H2].
    assert (Hi : cs_idx (step st x) = S (cs_idx st)) by (rewrite step_eq; done).
    assert (Hf : map fe_idx (cs_fitness (step st x)) =
                 map fe_idx (cs_fitness st) ++ [Some (sidx (S (cs_idx st)))])
      by (rewrite step_eq; simpl; by rewrite map_app).
    rewrite Hi in H1, H2. rewrite Hf in H2.
    split; [lia|]. rewrite H2, <- app_assoc. done.
Qed.

Lemma callbacks_ids_fresh (muts : list T) :
  let evs := cs_fitness (fold_left step muts init_callbacks) in
  NoDup (map fe_idx evs) /\
  Forall (fun e => exists n, fe_idx e = Some (sidx n) /\ (3 < n)%nat) evs.
Proof.
  destruct (callbacks_fold_ids muts init_callbacks) as [_ H]. simpl in H.
  split.
  - rewrite H. simpl. apply NoDup_ListNoDup, Finite.Injective_map_NoDup; [|apply seq_NoDup].
    intros a b Hab. apply sidx_inj. congruence.
  - apply Forall_forall. intros e He.
    assert (Hin : In (fe_idx e) (map (fun j => Some (sidx j)) (seq 5 (length muts)))).
    { rewrite <- H. apply in_map. by apply list_elem_of_In. }
    apply in_map_iff in Hin as [j [Hj Hjs]].
    apply in_seq in Hjs. exists j. split; [done | lia].
Qed.
End Callbacks.

(** C6. In one build session, the ids [s5], [s6], ... handed to the
    [fitness] callbacks by [Bryophyte._add_shared_mode_scripts] and by the
    [Pteridophyte] mode methods are pairwise distinct, each is [sidx n] with
    [n > 3], above the reserved [0..3]. *)
Theorem callback_ids_unique_above_reserved (muts : list MutationType) (names : list string) :
  (NoDup (map fe_idx (cs_fitness (bryo_shared_callbacks muts))) /\
   Forall (fun e => exists n, fe_idx e = Some (sidx n) /\ (3 < n)%nat)
     (cs_fitness (bryo_shared_callbacks muts))) /\
  (NoDup (map fe_idx (cs_fitness (pter_callbacks names))) /\
   Forall (fun e => exists n, fe_idx e = Some (sidx n) /\ (3 < n)%nat)
     (cs_fitness (pter_callbacks names))).
Proof.
  split.
  - apply (callbacks_ids_fresh _ bryo_callback_step mut_name); reflexivity.
  - apply (callbacks_ids_fresh _ pter_callback_step (fun s => s)); reflexivity.
Qed.

(** ** The terminal late() event *)

(** C8, refuted: with [sim_time = 10] and two ticks per life cycle, no
    loaded file, the end-of-simulation [late()] event is at tick 21, not
    [10 * 2 = 20]. *)
Lemma write_trees_file_tick_not_product :
  le_time (write_trees_file 10 2 None "out.trees") <> Some (10 * 2).
Proof. vm_compute. congruence. Qed.

(** C8, as the code does it: [_write_trees_file] schedules the final
    [late()] at [sim_time * gens_per_lifecycle + 1] (the tick after the
    last generation) and, when a prior run is loaded, at [int()] of that
    tick plus the loaded run's [max_root_time]; [Pteridophyte.end_sim]
    schedules it at [_sim_time + 1]. *)
Theorem final_late_event_tick (sim_time gens : Z) (max_root_time : Q) (sim_time_ : Z)
  (file_out : string) :
  le_time (write_trees_file sim_time gens None file_out) = Some (sim_time * gens + 1) /\
  le_time (write_trees_file sim_time gens (Some max_root_time) file_out)
    = Some (py_int (inject_Z (sim_time * gens + 1) + max_root_time)%Q) /\
  le_time (pter_end_sim sim_time_ file_out) = Some (sim_time_ + 1).
Proof. repeat split. Qed.

(** ** Rendering of the time token *)

Lemma string_app_assoc (a b c : string) : (a +:+ b) +:+ c = a +:+ (b +:+ c).
Proof.
  induction a as [|x a IH]; [reflexivity|].
  change (String x ((a +:+ b) +:+ c) = String x (a +:+ (b +:+ c))). by rewrite IH.
Qed.

Lemma pretty_Z_nonempty (t : Z) : pretty t +:+ " " <> "".
Proof. by destruct (pretty t). Qed.

(** C9, refuted: the tick [0] is falsy in Python, so
    [format_event_dicts_to_strings] drops it exactly as it drops [None]. *)
Lemma time_zero_not_rendered :
  Format.format_time (Some 0) <> pretty 0%Z +:+ " " /\
  Format.render_late (Some 0) (Format.Stmts ["sim.simulationFinished()"]) "end"
    = Format.render_late None (Format.Stmts ["sim.simulationFinished()"]) "end".
Proof. split; [vm_compute; congruence | reflexivity]. Qed.

(** C9, as the code does it: the time token is empty exactly when the time
    is [None] or [0]; every other tick [t] is rendered as the prefix
    ["t "] of the callback header. *)
Theorem time_token_rendering (time : option Z) (scripts : Format.Scripts) (comment : string) :
  (Format.format_time time = "" <-> time = None \/ time = Some 0%Z) /\
  (forall t, t <> 0%Z ->
     Format.render_late (Some t) scripts comment =
       "
" +:+ Format.format_comment comment +:+ pretty t +:+ " "
       +:+ "late() { // executes after selection occurs
    " +:+ Format.clean_scripts scripts +:+ "
}
" /\
     Format.render_early (Some t) scripts comment =
       "
" +:+ Format.format_comment comment +:+ pretty t +:+ " "
       +:+ "early() { // executes after offspring are generated
    " +:+ Format.clean_scripts scripts +:+ "
}
").
Proof.
  split.
  - destruct time as [t|]; simpl; [|tauto].
    destruct (Z.eqb_spec t 0) as [->|Ht]; [tauto|].
    split; [intros H; by apply pretty_Z_nonempty in H | intros [H|H]; congruence].
  - intros t Ht. unfold Format.render_late, Format.render_early, Format.format_time.
    apply Z.eqb_neq in Ht. rewrite Ht.
    split; by rewrite string_app_assoc.
Qed.

(** ** Explicit strategy *)

Lemma filter_ins_by {A} (key : A -> Z) (s : Z) (x : A) (l : list A) :
  List.filter (fun p => Z.eqb (key p) s) (ins_by key x l) =
  (if Z.eqb (key x) s then [x] else []) ++ List.filter (fun p => Z.eqb (key p) s) l.
Proof.
  induction l as [|y l IH]; simpl; [by destruct (Z.eqb (key x) s)|].
  destruct (Z.leb_spec (key x) (key y)) as [Hle|Hlt].
  - simpl. by destruct (Z.eqb (key x) s).
  - simpl. rewrite IH.
    destruct (Z.eqb_spec (key x) s), (Z.eqb_spec (key y) s); simpl; try done; lia.
Qed.

(** Stability: sorting keeps the entries of one key in input order. *)
Lemma filter_sort_by {A} (key : A -> Z) (s : Z) (l : list A) :
  List.filter (fun p => Z.eqb (key p) s) (sort_by key l) = List.filter (fun p => Z.eqb (key p) s) l.
Proof.
  induction l as [|x l IH]; simpl; [done|].
  rewrite filter_ins_by, IH. by destruct (Z.eqb (key x) s).
Qed.

Lemma explicit_row_at_filter (s : Z) (l : ExplicitData) (acc : option Row) :
  explicit_row_at s l acc = explicit_row_at s (List.filter (fun p => Z.eqb (fst (fst p)) s) l) acc.
Proof.
  revert acc. induction l as [|[[st en] v] l IH]; intros acc; [done|].
  unfold explicit_row_at in *. cbn [fold_left List.filter fst].
  destruct (Z.eqb st s) eqn:E; cbn [fold_left]; rewrite IH; destruct v; rewrite ?E; done.
Qed.

Lemma explicit_row_at_app (s : Z) (l1 l2 : ExplicitData) (acc : option Row) :
  explicit_row_at s (l1 ++ l2) acc = explicit_row_at s l2 (explicit_row_at s l1 acc).
Proof. unfold explicit_row_at. by rewrite fold_left_app. Qed.

Lemma explicit_row_at_other (s : Z) (l : ExplicitData) (acc : option Row) :
  Forall (fun p => fst (fst p) <> s) l -> explicit_row_at s l acc = acc.
Proof.
  revert acc. induction l as [|[[st en] v] l IH]; intros acc Hl; [done|].
  inversion Hl as [|? ? Hx Hl']; subst. simpl in Hx.
  unfold explicit_row_at in *; simpl.
  destruct v; [|by apply IH].
  apply Z.eqb_neq in Hx. rewrite Hx. by apply IH.
Qed.

Lemma rows_at_frame_set_same (s : Z) (r : Row) (df : Frame) :
  (length (rows_at s df) <= 1)%nat -> rows_at s (frame_set s r df) = [(s, r)].
Proof.
  unfold rows_at. induction df as [|[k r'] df IH]; intros Hlen; simpl; [by rewrite Z.eqb_refl|].
  simpl in Hlen. destruct (Z.eqb_spec k s) as [->|Hne]; simpl.
  - rewrite Z.eqb_refl. simpl in Hlen.
    destruct (List.filter _ df) eqn:Hf; [done | simpl in Hlen; lia].
  - apply Z.eqb_neq in Hne. rewrite Hne. by apply IH.
Qed.

Lemma rows_at_frame_set_other (s k : Z) (r : Row) (df : Frame) :
  k <> s -> rows_at s (frame_set k r df) = rows_at s df.
Proof.
  unfold rows_at. intros Hks. induction df as [|[k' r'] df IH]; simpl.
  - apply Z.eqb_neq in Hks. by rewrite Hks.
  - destruct (Z.eqb_spec k' k) as [->|Hne]; simpl.
    + apply Z.eqb_neq in Hks. by rewrite Hks.
    + by rewrite IH.
Qed.

Lemma rows_at_fill (s : Z) (l : ExplicitData) (df : Frame) (acc : option Row) :
  rows_at s df = opt_rows s acc ->
  rows_at s (fold_left
    (fun acc '((start, end_), v) =>
       match v with
       | Some e => frame_set start (mk_row e start end_) acc
       | None => acc
       end) l df) = opt_rows s (explicit_row_at s l acc).
Proof.
  revert df acc. induction l as [|[[st en] v] l IH]; intros df acc Hdf; [done|].
  unfold explicit_row_at; simpl. apply IH.
  destruct v as [e|]; [|done].
  destruct (Z.eqb_spec st s) as [->|Hne].
  - apply rows_at_frame_set_same. rewrite Hdf. by destruct acc; simpl; lia.
  - by rewrite rows_at_frame_set_other.
Qed.

(** The rows [ChromosomeExplicit] leaves at label [s]. *)
Lemma explicit_fill_rows_at (s : Z) (data : ExplicitData) :
  rows_at s (explicit_fill data []) = opt_rows s (explicit_row_at s data None).
Proof.
  unfold explicit_fill. rewrite (rows_at_fill s _ [] None) by done.
  rewrite explicit_row_at_filter, (explicit_row_at_filter s data).
  by rewrite (filter_sort_by (fun p => fst (fst p))).
Qed.

(** C10. Two keys of the input dict with the same start [s]: construction
    succeeds and the table keeps one row at [s], the one of the key that
    comes later among the keys with start [s]. *)
Theorem explicit_same_start_keeps_later (pre mid post : ExplicitData) (s e1 e2 : Z)
  (t1 t2 : ElementType) (genome_size : option Z) :
  Forall (fun p => fst (fst p) <> s) post ->
  exists m,
    chromosome_explicit (pre ++ ((s, e1), Some t1) :: mid ++ ((s, e2), Some t2) :: post)
      genome_size = Some m /\
    rows_at s (cm_data m) = [(s, mk_row t2 s e2)].
Proof.
  intros Hpost.
  set (data := pre ++ ((s, e1), Some t1) :: mid ++ ((s, e2), Some t2) :: post).
  assert (Hmax : exists g, max_list (map (fun p => snd (fst p)) data) = Some g).
  { unfold data. destruct pre as [|x pre]; simpl; eauto. }
  destruct Hmax as [g Hg].
  assert (Hs : exists g', chromosome_explicit data genome_size =
                 Some {| cm_genome_size := g'; cm_data := explicit_fill data [] |}).
  { unfold chromosome_explicit. destruct genome_size as [g'|]; [by exists g'|].
    rewrite Hg. by eexists. }
  destruct Hs as [g' Hs]. eexists. split; [exact Hs|].
  - simpl. rewrite explicit_fill_rows_at. unfold data.
    rewrite explicit_row_at_app. simpl.
    rewrite explicit_row_at_app. simpl. unfold explicit_row_at at 2. simpl.
    rewrite Z.eqb_refl. by rewrite explicit_row_at_other.
Qed.

(** ** Mutation-type lists (build.py) *)

Lemma remove_dups_nodup (l : list string) : NoDup l -> remove_dups l = l.
Proof.
  induction l as [|x l IH]; intros Hnd; [done|].
  apply NoDup_cons in Hnd as [Hx Hnd]. simpl.
  destruct (decide_rel (∈) x l); [done|]. by rewrite IH.
Qed.

Lemma remove_dups_app_dup (l1 l2 : list string) (x : string) :
  x ∈ l2 -> remove_dups (l1 ++ x :: l2) = remove_dups (l1 ++ l2).
Proof.
  intros Hx. induction l1 as [|y l1 IH]; simpl.
  - destruct (decide_rel (∈) x l2); done.
  - rewrite IH.
    destruct (decide_rel (∈) y (l1 ++ x :: l2)) as [H1|H1], (decide_rel (∈) y (l1 ++ l2)) as [H2|H2];
      try done; exfalso; set_solver.
Qed.

Lemma NoDup_first_seen (l : list string) : NoDup (first_seen l).
Proof. unfold first_seen. rewrite reverse_Permutation. apply NoDup_remove_dups. Qed.

Lemma elem_of_first_seen (l : list string) (n : string) : n ∈ first_seen l <-> n ∈ l.
Proof. unfold first_seen. by rewrite elem_of_reverse, elem_of_remove_dups, elem_of_reverse. Qed.

Lemma first_seen_nodup (l : list string) : NoDup l -> first_seen l = l.
Proof.
  intros Hnd. unfold first_seen. rewrite remove_dups_nodup.
  - apply reverse_involutive.
  - by rewrite reverse_Permutation.
Qed.

(** The [if mutation.name not in mutations: mutations.append(...)] loop
    keeps names at their first occurrence. *)
Lemma fold_add_mutation_name (ms : list MutationType) (acc : list string) :
  NoDup acc -> fold_left add_mutation_name ms acc = first_seen (acc ++ map mut_name ms).
Proof.
  revert acc. induction ms as [|m ms IH]; intros acc Hnd; simpl.
  - by rewrite app_nil_r, first_seen_nodup.
  - unfold add_mutation_name at 2. case_decide as Hin.
    + rewrite IH by done. unfold first_seen. f_equal.
      rewrite !reverse_app, reverse_cons, <- app_assoc. simpl.
      rewrite remove_dups_app_dup; [done|]. by apply elem_of_reverse.
    + rewrite IH.
      * by rewrite <- app_assoc.
      * apply NoDup_app. split; [done|]. split; [|apply NoDup_singleton].
        intros x Hx Hx'. apply list_elem_of_singleton in Hx'. by subst.
Qed.

Lemma build_mutations_fold (es : list ElementType) (acc : list string) :
  build_mutations (map Some es) acc = Some (fold_left add_mutation_name (concat (map mlist es)) acc).
Proof.
  revert acc. induction es as [|e es IH]; intros acc; simpl; [done|].
  by rewrite IH, fold_left_app.
Qed.

Lemma build_mutations_first_seen (es : list ElementType) :
  build_mutations (map Some es) [] = Some (first_seen (mutation_names es)).
Proof.
  rewrite build_mutations_fold, fold_add_mutation_name; [done | constructor].
Qed.

(** C2, refuted: an element type listing two distinct mutation types
    (ids 1 and 2) that share the name ["m1"] yields a [mutations] list with
    one entry, the name ["m1"]. *)
Lemma mutations_merge_same_name :
  mut_id sample_mut_a <> mut_id sample_mut_b /\
  build_chromosome_explicit [((0, 1000), Some sample_elem_dup)] =
    Some {| bc_genome_size := 1001; bc_data := [(0, mk_row sample_elem_dup 0 1000)];
            bc_mutations := ["m1"] |}.
Proof. split; [discriminate | vm_compute; reflexivity]. Qed.

(** C2, as the code does it (build.py): the [mutations] of an explicit
    chromosome are the names of the mutation types of the dict's element
    types (in dict order), each name kept at its first occurrence, so
    distinct types sharing a name give one entry; the random builder does
    the same over [[intron, exon, noncds]]. *)
Theorem mutations_first_seen_by_name (data : ExplicitData) (es : list ElementType)
  (intron exon noncds : ElementType) :
  data <> [] -> map snd data = map Some es ->
  (exists m, build_chromosome_explicit data = Some m /\
     bc_mutations m = first_seen (mutation_names es) /\
     NoDup (bc_mutations m) /\
     (forall n, n ∈ bc_mutations m <-> n ∈ mutation_names es)) /\
  build_random_mutations intron exon noncds = Some (first_seen (mutation_names [intron; exon; noncds])).
Proof.
  intros Hne Hvals. split; [|apply build_mutations_first_seen].
  unfold build_chromosome_explicit.
  rewrite Hvals, build_mutations_first_seen.
  destruct data as [|x data]; [done|]. simpl.
  eexists. split; [reflexivity|]. simpl.
  split; [done|]. split; [apply NoDup_first_seen | apply elem_of_first_seen].
Qed.

(** C3, refuted: for [{(0, 1000): T}] where [T] lists two mutation types
    sharing a name, [mutations] is shorter than [T]'s mutation list. *)
Lemma single_interval_mutations_shorter :
  exists m, build_chromosome_explicit [((0, 1000), Some sample_elem_dup)] = Some m /\
    length (bc_mutations m) <> length (mlist sample_elem_dup).
Proof. eexists. split; [vm_compute; reflexivity | simpl; lia]. Qed.

(** C3, as the code does it: [{(0, 1000): T}] gives one row [[0, 1000]] of
    type [T] and genome size 1001 (both builders); [mutations] is the list
    of the names of [T]'s mutation types in declared order, each name kept
    at its first occurrence, and it equals that list of names exactly when
    the names are distinct. *)
Theorem explicit_single_interval (T : ElementType) :
  chromosome_explicit [((0, 1000), Some T)] None =
    Some {| cm_genome_size := 1001; cm_data := [(0, mk_row T 0 1000)] |} /\
    build_chromosome_explicit [((0, 1000), Some T)] =
    Some {| bc_genome_size := 1001; bc_data := [(0, mk_row T 0 1000)];
            bc_mutations := first_seen (map mut_name (mlist T)) |} /\
    (first_seen (map mut_name (mlist T)) = map mut_name (mlist T) <-> NoDup (map mut_name (mlist T))).
Proof.
  split; [reflexivity|]. split.
  2:{ split; [intros H; rewrite <- H; apply NoDup_first_seen|apply first_seen_nodup]. }
  unfold build_chromosome_explicit.
  change (map snd [((0, 1000), Some T)]) with (map Some [T]).
  rewrite build_mutations_first_seen. unfold mutation_names.
  cbn [map concat max_list fold_left fst snd]. by rewrite app_nil_r.
Qed.

(** ** Random strategy: draws *)

Lemma py_int_nonneg (q : Q) : (0 <= q)%Q -> 0 <= py_int q.
Proof.
  intros Hq. unfold py_int.
  assert (Hb : Qle_bool 0 q = true) by (apply Qle_bool_iff; exact Hq).
  rewrite Hb. change 0 with (Qfloor 0). apply Qfloor_resp_le. exact Hq.
Qed.

Lemma exponential_nonneg (s x : Q) (g g' : Rng) :
  exponential s g = Ok x g' -> (0 <= x)%Q.
Proof.
  unfold exponential. destruct (Qlt_le_dec s 0) as [_|Hs]; [discriminate|].
  destruct (exps g) as [|u t]; [discriminate|].
  destruct (Qle_bool 0 u) eqn:Hu; [|discriminate].
  intros H. injection H as <- _. apply Qle_bool_iff in Hu.
  apply Qmult_le_0_compat; assumption.
Qed.

Lemma noncds_span_nonneg (c : RandomConfig) (g g' : Rng) (s : Z) :
  get_noncds_span c g = Ok s g' -> 0 <= s.
Proof.
  unfold get_noncds_span, bind, ret.
  destruct (exponential _ g) as [x g1| |] eqn:He; try discriminate.
  intros H. injection H as <- _. apply py_int_nonneg. eapply exponential_nonneg; eauto.
Qed.

(** The rejection loop only returns splits that all exceed 3. *)
Lemma split_loop_floor (fuel : nat) (n cds : Z) (g g' : Rng) (splits : list Z) :
  split_loop fuel n cds g = Ok splits g' -> Forall (fun i => 3 < i) splits.
Proof.
  revert g. induction fuel as [|fuel IH]; intros g H; [discriminate|].
  simpl in H. unfold bind at 1 in H.
  destruct (dirichlet (n * 2 - 1) g) as [ws g1| |]; try discriminate.
  destruct (fix_last cds _) as [l|]; [|discriminate].
  destruct (forallb (fun i => Z.ltb 3 i) l) eqn:Hb.
  - injection H as <- _. apply Forall_forall. intros i Hi.
    apply list_elem_of_In in Hi. eapply forallb_forall in Hb; [|exact Hi].
    by apply Z.ltb_lt.
  - exact (IH g1 H).
Qed.

Lemma cds_spans_nonneg (fuel : nat) (c : RandomConfig) (g g' : Rng) (spans : list Z) :
  get_cds_spans fuel c g = Ok spans g' -> Forall (fun i => 0 <= i) spans.
Proof.
  unfold get_cds_spans, bind at 1.
  destruct (exponential _ g) as [x g1| |] eqn:He; try discriminate.
  unfold bind at 1, py_div.
  destruct (Z.eqb (rc_intron_scale c) 0); [discriminate|]. unfold ret.
  unfold bind. destruct (poisson _ g1) as [k g2| |]; try discriminate.
  destruct (negb (Z.eqb k 0)).
  - intros H. eapply Forall_impl; [eapply split_loop_floor; exact H|]. simpl; lia.
  - intros H. injection H as <- _. constructor; [|constructor].
    apply py_int_nonneg. eapply exponential_nonneg; eauto.
Qed.

(** ** Random strategy: the frame invariant *)

Lemma frame_set_fresh (idx : Z) (r : Row) (df : Frame) :
  Forall (fun p => fst p < idx) df -> frame_set idx r df = df ++ [(idx, r)].
Proof.
  induction df as [|[k r'] t IH]; intros H; [done|].
  inversion H as [|? ? Hk Ht]; subst. simpl in Hk. simpl.
  destruct (Z.eqb_spec k idx); [lia|]. by rewrite IH.
Qed.

Lemma StronglySorted_snoc {A} (R : A -> A -> Prop) (l : list A) (x : A) :
  StronglySorted R l -> Forall (fun y => R y x) l -> StronglySorted R (l ++ [x]).
Proof.
  induction l as [|y l IH]; intros Hs Hf; simpl.
  - repeat constructor.
  - inversion Hs; inversion Hf; subst. constructor.
    + by apply IH.
    + apply Forall_app. split; [done|]. by constructor.
Qed.

Lemma intervals_disjoint_snoc (df : Frame) (p : Z * Row) :
  intervals_disjoint df ->
  Forall (fun q => row_end (snd q) < row_start (snd p)) df ->
  intervals_disjoint (df ++ [p]).
Proof.
  intros Hd Hf i j pi pj Hij Hi Hj.
  apply lookup_snoc_Some in Hi as [[Hi1 Hi2]|[Hi1 Hi2]];
  apply lookup_snoc_Some in Hj as [[Hj1 Hj2]|[Hj1 Hj2]].
  - exact (Hd i j pi pj Hij Hi2 Hj2).
  - subst. left. rewrite Forall_lookup in Hf. exact (Hf i pi Hi2).
  - subst. right. rewrite Forall_lookup in Hf. exact (Hf j pj Hj2).
  - subst. lia.
Qed.

Lemma frame_inv_nil (bound : Z) : frame_inv 0 bound [].
Proof.
  split; [constructor|]. split; [constructor|].
  intros i j pi pj _ Hi. discriminate Hi.
Qed.

(** Appending a row labelled at or above the current position that starts
    after it keeps the invariant. *)
Lemma frame_inv_snoc (idx idx' bound k : Z) (r : Row) (df : Frame) :
  frame_inv idx bound df -> idx <= k -> k < idx' -> idx < row_start r ->
  row_end r <= idx' -> row_end r <= bound -> idx <= idx' ->
  frame_inv idx' bound (df ++ [(k, r)]).
Proof.
  intros [Hf [Hs Hd]] Hk Hk' Hst He1 He2 Hii.
  split; [|split].
  - apply Forall_app. split; [|constructor; simpl; [lia|constructor]].
    eapply Forall_impl; [exact Hf|]. simpl. lia.
  - apply StronglySorted_snoc; [done|]. eapply Forall_impl; [exact Hf|]. simpl. lia.
  - apply intervals_disjoint_snoc; [done|]. eapply Forall_impl; [exact Hf|]. simpl. lia.
Qed.

Lemma frame_inv_keys (idx bound : Z) (df : Frame) :
  frame_inv idx bound df -> Forall (fun p => fst p < idx) df.
Proof. intros [Hf _]. eapply Forall_impl; [exact Hf|]. simpl. lia. Qed.

Lemma sum_nonneg (l : list Z) : Forall (fun i => 0 <= i) l -> 0 <= fold_right Z.add 0 l.
Proof. induction l as [|x l IH]; intros H; simpl; [lia|]. inversion H; subst. specialize (IH H3). lia. Qed.

Lemma enter_cds_inv (c : RandomConfig) (bound : Z) (spans : list Z) :
  forall enum idx df g idx' df' g',
  Forall (fun i => 0 <= i) spans -> frame_inv idx bound df ->
  idx + fold_right Z.add 0 spans + Z.of_nat (length spans) <= bound ->
  enter_cds c enum spans idx df g = Ok (idx', df') g' ->
  frame_inv idx' bound df'.
Proof.
  induction spans as [|sp rest IH]; intros enum idx df g idx' df' g' Hn Hinv Hb H.
  - simpl in H. unfold ret in H. injection H as <- <- _. exact Hinv.
  - simpl in H. unfold bind in H.
    destruct (choose _ g) as [ele g1| |]; try discriminate.
    inversion Hn as [|? ? Hsp Hrest]; subst.
    pose proof (sum_nonneg rest Hrest) as Hsum.
    rewrite frame_set_fresh in H by (eapply frame_inv_keys; eauto).
    assert (Hb' : idx + sp + 1 + fold_right Z.add 0 rest + Z.of_nat (length rest) <= bound).
    { cbn [fold_right length] in Hb. rewrite Nat2Z.inj_succ in Hb. lia. }
    eapply IH; [exact Hrest| |exact Hb'|exact H].
    apply (frame_inv_snoc idx); simpl; try lia. exact Hinv.
Qed.

Lemma run_loop_inv (c : RandomConfig) (fuel : nat) :
  forall idx df g df' g',
  frame_inv idx (rc_genome_size c) df ->
  run_loop fuel c idx df g = Ok df' g' ->
  exists idx', frame_inv idx' (rc_genome_size c) df'.
Proof.
  induction fuel as [|fuel IH]; intros idx df g df' g' Hinv H; [discriminate|].
  simpl in H. unfold bind at 1 in H.
  destruct (get_noncds_span c g) as [span g1| |] eqn:Hspan; try discriminate.
  apply noncds_span_nonneg in Hspan.
  rewrite frame_set_fresh in H by (eapply frame_inv_keys; eauto).
  set (df1 := df ++ _) in H.
  assert (Hinv1 : frame_inv (idx + span + 1) (rc_genome_size c) df1).
  { apply (frame_inv_snoc idx); simpl; try lia; [exact Hinv]. }
  unfold bind at 1 in H.
  destruct (get_cds_spans fuel c g1) as [spans g2| |] eqn:Hsp; try discriminate.
  apply cds_spans_nonneg in Hsp.
  destruct (Z.ltb_spec (rc_genome_size c)
              (idx + span + 1 + fold_right Z.add 0 spans + Z.of_nat (length spans))).
  - unfold ret in H. injection H as <- _. eauto.
  - unfold bind in H.
    destruct (enter_cds c 0 spans (idx + span + 1) df1 g2) as [[idx2 df2] g3| |] eqn:He;
      try discriminate.
    eapply IH; [|exact H]. simpl.
    eapply enter_cds_inv; [exact Hsp|exact Hinv1|lia|exact He].
Qed.

Lemma ins_by_head {A} (key : A -> Z) (x : A) (l : list A) :
  Forall (fun y => key x < key y) l -> ins_by key x l = x :: l.
Proof.
  destruct l as [|y l]; intros H; [done|]. simpl.
  inversion H; subst. destruct (Z.leb_spec (key x) (key y)); [done|lia].
Qed.

Lemma sort_by_sorted {A} (key : A -> Z) (l : list A) :
  StronglySorted (fun p q => key p < key q) l -> sort_by key l = l.
Proof.
  induction l as [|x l IH]; intros H; [done|].
  inversion H; subst. simpl. rewrite IH by done. by apply ins_by_head.
Qed.

Lemma run_rows_ok (fuel : nat) (c : RandomConfig) (g g' : Rng) (df : Frame) :
  run fuel c g = Ok df g' ->
  intervals_disjoint df /\ Forall (fun p => row_end (snd p) <= rc_genome_size c) df.
Proof.
  unfold run, bind.
  destruct (run_loop fuel c 0 [] g) as [df0 g1| |] eqn:H; try discriminate.
  apply run_loop_inv in H as [idx [Hf [Hs Hd]]]; [|apply frame_inv_nil].
  unfold ret. intros E. injection E as <- _.
  rewrite sort_by_sorted by exact Hs. split; [exact Hd|].
  eapply Forall_impl; [exact Hf|]. simpl. lia.
Qed.

(** ** Default and explicit strategies: interval ends *)

Lemma frame_set_Forall (P : Z * Row -> Prop) (idx : Z) (r : Row) (df : Frame) :
  Forall P df -> P (idx, r) -> Forall P (frame_set idx r df).
Proof.
  induction df as [|[k r'] t IH]; intros H Hp; simpl; [by constructor|].
  inversion H; subst. destruct (Z.eqb k idx) eqn:E.
  - apply Z.eqb_eq in E. subst. by constructor.
  - constructor; [done|]. by apply IH.
Qed.

Lemma ins_by_Forall {A} (key : A -> Z) (P : A -> Prop) (x : A) (l : list A) :
  P x -> Forall P l -> Forall P (ins_by key x l).
Proof.
  induction l as [|y l IH]; intros Hx H; simpl; [by constructor|].
  inversion H; subst. destruct (Z.leb (key x) (key y)).
  - by repeat constructor.
  - constructor; [done|]. by apply IH.
Qed.

Lemma sort_by_Forall {A} (key : A -> Z) (P : A -> Prop) (l : list A) :
  Forall P l -> Forall P (sort_by key l).
Proof.
  induction l as [|x l IH]; intros H; simpl; [done|].
  inversion H; subst. apply ins_by_Forall; auto.
Qed.

Lemma explicit_fill_ends (bound : Z) (data : ExplicitData) (df : Frame) :
  Forall (fun q => snd (fst q) <= bound) data ->
  Forall (fun p => row_end (snd p) <= bound) df ->
  Forall (fun p => row_end (snd p) <= bound) (explicit_fill data df).
Proof.
  unfold explicit_fill. intros Hd.
  pose proof (sort_by_Forall (fun p => fst (fst p)) _ _ Hd) as Hs. revert Hs.
  generalize (sort_by (fun p => fst (fst p)) data) as l. clear Hd.
  intros l. revert df. induction l as [|[[st en] v] l IH]; intros df Hs Hdf; simpl; [done|].
  inversion Hs; subst. apply IH; [done|]. destruct v as [e|]; [|done].
  apply frame_set_Forall; [done|]. done.
Qed.

Lemma fold_left_max_ge (l : list Z) (a : Z) :
  a <= fold_left Z.max l a /\ Forall (fun y => y <= fold_left Z.max l a) l.
Proof.
  revert a. induction l as [|x l IH]; intros a; simpl; [split; [lia|constructor]|].
  destruct (IH (Z.max a x)) as [H1 H2]. split; [lia|]. constructor; [lia|done].
Qed.

Lemma max_list_ge (l : list Z) (m : Z) : max_list l = Some m -> Forall (fun y => y <= m) l.
Proof.
  destruct l as [|x l]; simpl; [discriminate|]. intros H. injection H as <-.
  destruct (fold_left_max_ge l x). constructor; done.
Qed.

Lemma explicit_ends_within (data : ExplicitData) (m : ChromosomeModel) :
  chromosome_explicit data None = Some m -> ends_within (cm_data m) (cm_genome_size m).
Proof.
  unfold chromosome_explicit. simpl.
  destruct (max_list (map (fun p => snd (fst p)) data)) as [mx|] eqn:Hm; simpl; [|discriminate].
  intros H. injection H as <-. unfold ends_within. simpl.
  apply max_list_ge in Hm. rewrite Forall_map in Hm.
  apply explicit_fill_ends; [|constructor].
  eapply Forall_impl; [exact Hm|]. simpl. lia.
Qed.

Lemma default_rows (N E I : ElementType) :
  cm_data (chromosome_default N E I) =
    [(0, mk_row N 0 2000); (2001, mk_row E 2001 4000); (4001, mk_row I 4001 6000);
     (6001, mk_row E 6001 8000); (8001, mk_row N 8001 10000)].
Proof. reflexivity. Qed.

(** C1, refuted: the explicit strategy accepts the overlapping intervals
    [(0, 10)] and [(5, 20)] and stores both. *)
Lemma explicit_accepts_overlap :
  exists m, chromosome_explicit [((0, 10), Some sample_elem); ((5, 20), Some sample_elem)] None = Some m /\
    cm_data m = [(0, mk_row sample_elem 0 10); (5, mk_row sample_elem 5 20)] /\
    ~ intervals_disjoint (cm_data m).
Proof.
  eexists. split; [reflexivity|]. split; [reflexivity|].
  intros Hd. specialize (Hd 0%nat 1%nat _ _ ltac:(discriminate) eq_refl eq_refl).
  simpl in Hd. lia.
Qed.

(** C1, as the code does it: every completed run of the random strategy
    (classes.py) and the default chromosome store pairwise non-overlapping
    intervals ending at most at genome length - 1; the explicit strategy
    without a [genome_size] keeps every end at most at genome length - 1
    but checks no overlap (see [explicit_accepts_overlap]). *)
Theorem chromosome_interval_invariants :
  (forall fuel genome_size intron exon noncds intron_scale cds_scale noncds_scale g g' df,
     run fuel (chromosome_random_init genome_size intron exon noncds intron_scale cds_scale noncds_scale) g
       = Ok df g' ->
     intervals_disjoint df /\ ends_within df genome_size) /\
  (forall N E I, intervals_disjoint (cm_data (chromosome_default N E I)) /\
     ends_within (cm_data (chromosome_default N E I)) (cm_genome_size (chromosome_default N E I))) /\
  (forall data m, chromosome_explicit data None = Some m -> ends_within (cm_data m) (cm_genome_size m)).
Proof.
  split; [|split].
  - intros fuel gs intron exon noncds is cs ns g g' df H.
    apply run_rows_ok in H as [Hd Hf]. split; [exact Hd|].
    unfold ends_within. eapply Forall_impl; [exact Hf|]. simpl. lia.
  - intros N E I. rewrite default_rows. split.
    + intros i j pi pj Hij Hi Hj.
      destruct i as [|[|[|[|[|i]]]]]; simpl in Hi; try discriminate; injection Hi as <-;
      destruct j as [|[|[|[|[|j]]]]]; simpl in Hj; try discriminate; injection Hj as <-;
      simpl; lia.
    + unfold ends_within. simpl. repeat constructor; simpl; lia.
  - apply explicit_ends_within.
Qed.

(** ** Minimum-segment floor *)

Lemma dirichlet_length (m : Z) (g g' : Rng) (ws : list Q) :
  dirichlet m g = Ok ws g' -> length ws = Z.to_nat m.
Proof.
  unfold dirichlet. destruct (Z.ltb m 0); [discriminate|].
  destruct (dirichlets g) as [|w t]; [discriminate|].
  destruct (Nat.eqb (length w) (Z.to_nat m)) eqn:E; simpl; [|discriminate].
  destruct (forallb _ w && _); [|discriminate].
  intros H. injection H as <- _. by apply Nat.eqb_eq.
Qed.

Lemma fix_last_length (cds : Z) (l l' : list Z) :
  fix_last cds l = Some l' -> length l' = length l.
Proof.
  destruct l as [|x t]; [discriminate|]. intros H. injection H as <-.
  pose proof (f_equal (@length Z) (@List.app_removelast_last Z (x :: t) 0 ltac:(discriminate))) as E.
  rewrite length_app in E |- *. simpl length in E |- *. lia.
Qed.

Lemma split_loop_length (fuel : nat) (n cds : Z) (g g' : Rng) (splits : list Z) :
  split_loop fuel n cds g = Ok splits g' -> length splits = Z.to_nat (n * 2 - 1).
Proof.
  revert g. induction fuel as [|fuel IH]; intros g H; [discriminate|].
  simpl in H. unfold bind at 1 in H.
  destruct (dirichlet (n * 2 - 1) g) as [ws g1| |] eqn:Hd; try discriminate.
  destruct (fix_last cds _) as [l|] eqn:Hf; [|discriminate].
  destruct (forallb (fun i => Z.ltb 3 i) l).
  - injection H as <- _. apply fix_last_length in Hf. rewrite Hf, length_map.
    exact (dirichlet_length _ _ _ _ Hd).
  - exact (IH g1 H).
Qed.

(** C4, a defect of build.py: in classes.py, when the Poisson draw gives
    [n_introns > 0], [get_cds_spans] returns the splits of its rejection
    loop, and every returned split (the [2 * n_introns - 1] alternating exon
    and intron segments) is longer than 3; the [get_cds_spans] of build.py
    has no such loop and, for a CDS span of 12, 2 introns and the Dirichlet
    draw [[0.5, 0.25, 0.25]], returns the segments [[6, 3, 3]]. *)
Theorem cds_segments_above_floor :
  (forall (fuel : nat) (n cds : Z) (g g' : Rng) (splits : list Z),
     0 < n -> split_loop fuel n cds g = Ok splits g' ->
     Forall (fun i => 3 < i) splits /\ Z.of_nat (length splits) = 2 * n - 1) /\
  build_get_cds_spans 1000 1000
    {| exps := [(12#1000)%Q]; poissons := [2]; dirichlets := [[(1#2)%Q; (1#4)%Q; (1#4)%Q]];
       choices := [] |} = Ok [6; 3; 3] empty_rng /\
  ~ Forall (fun i => 3 < i) [6; 3; 3].
Proof.
  split; [|split].
  - intros fuel n cds g g' splits Hn H. split.
    + exact (split_loop_floor _ _ _ _ _ _ H).
    + rewrite (split_loop_length _ _ _ _ _ _ H). lia.
  - vm_compute. reflexivity.
  - intros H. inversion H as [|? ? _ H']; subst. inversion H'; subst. lia.
Qed.

Lemma cds_segments_above_floor_witness :
  Forall (fun i => 3 < i) [10; 10; 10] /\ Z.of_nat (length [10; 10; 10]) = 2 * 2 - 1.
Proof.
  apply (proj1 cds_segments_above_floor 1%nat 2 30
           {| exps := []; poissons := []; dirichlets := [[1#3; 1#3; 1#3]]; choices := [] |}
           (exp_stream [])).
  - lia.
  - vm_compute. reflexivity.
Defined.

(** ** Scale parameters *)

Lemma exponential_neg (s : Q) (g : Rng) : (s < 0)%Q -> @exponential s g = Raise ValueError.
Proof. intros H. unfold exponential. by destruct (Qlt_le_dec s 0) as [_|Hs]; [|exfalso; apply (Qlt_not_le _ _ H)]. Qed.

Lemma exponential_draw (s u : Q) (t : list Q) (g : Rng) :
  (0 <= s)%Q -> (0 <= u)%Q -> exps g = u :: t ->
  exponential s g = Ok (s * u)%Q {| exps := t; poissons := poissons g;
                                    dirichlets := dirichlets g; choices := choices g |}.
Proof.
  intros Hs Hu Hg. unfold exponential.
  destruct (Qlt_le_dec s 0) as [Hl|_]; [exfalso; apply (Qlt_not_le _ _ Hl Hs)|].
  rewrite Hg. assert (Hb : Qle_bool 0 u = true) by (apply Qle_bool_iff; exact Hu).
  by rewrite Hb.
Qed.

Lemma exponential_empty (s : Q) (g : Rng) : (0 <= s)%Q -> exps g = [] -> exponential s g = Stuck.
Proof.
  intros Hs Hg. unfold exponential.
  destruct (Qlt_le_dec s 0) as [Hl|_]; [exfalso; apply (Qlt_not_le _ _ Hl Hs)|].
  by rewrite Hg.
Qed.

Lemma inject_Z_nonneg (z : Z) : 0 <= z -> (0 <= inject_Z z)%Q.
Proof. intros H. unfold Qle. simpl. lia. Qed.

Lemma inject_Z_neg (z : Z) : z < 0 -> (inject_Z z < 0)%Q.
Proof. intros H. unfold Qlt. simpl. lia. Qed.

Lemma bind_ok {A B} (m : M A) (f : A -> M B) (g : Rng) (a : A) (g' : Rng) :
  m g = Ok a g' -> bind m f g = f a g'.
Proof. intros H. unfold bind. by rewrite H. Qed.

Lemma bind_raise {A B} (m : M A) (f : A -> M B) (g : Rng) (e : PyErr) :
  m g = Raise e -> bind m f g = Raise e.
Proof. intros H. unfold bind. by rewrite H. Qed.

Lemma bind_stuck {A B} (m : M A) (f : A -> M B) (g : Rng) :
  m g = Stuck -> bind m f g = Stuck.
Proof. intros H. unfold bind. by rewrite H. Qed.

(** C7, refuted: with [noncds_scale = 0] and [cds_scale = -5] the random
    strategy raises nothing and completes a run. *)
Lemma random_accepts_nonpositive_scales :
  exists g', run 10 (chromosome_random_init 100 (Single sample_elem) (Single sample_elem)
                      sample_noncds 1000 (-5) 0)
               {| exps := [1%Q; 1%Q]; poissons := [0]; dirichlets := []; choices := [] |}
             = Ok [(0, mk_row sample_noncds 1 1)] g'.
Proof. eexists. vm_compute. reflexivity. Qed.

(** C7, as the code does it (classes.py): no scale is checked up front.
    A [noncds_scale] of 0 makes every non-coding wait 0 with no error; a
    negative [noncds_scale] raises [ValueError] from numpy at the first
    exponential draw; [intron_scale = 0] raises [ZeroDivisionError] only
    after the non-coding and coding spans have been drawn (with no draw
    available the run stops before any error). *)
Theorem random_scales_unchecked :
  (forall c g u t, rc_noncds_scale c = 0 -> (0 <= u)%Q -> exps g = u :: t ->
     get_noncds_span c g = Ok 0 {| exps := t; poissons := poissons g;
                                   dirichlets := dirichlets g; choices := choices g |}) /\
  (forall fuel c g, rc_noncds_scale c < 0 -> run (S fuel) c g = Raise ValueError) /\
  (forall fuel c u1 u2 t,
     rc_intron_scale c = 0 -> 0 <= rc_noncds_scale c -> 0 <= rc_gene_size c ->
     (0 <= u1)%Q -> (0 <= u2)%Q ->
     run (S fuel) c (exp_stream (u1 :: u2 :: t)) = Raise ZeroDivisionError) /\
  (forall fuel c, rc_intron_scale c = 0 -> 0 <= rc_noncds_scale c ->
     run (S fuel) c (exp_stream []) = Stuck).
Proof.
  split; [|split; [|split]].
  - intros c g u t Hz Hu Hg. unfold get_noncds_span.
    erewrite bind_ok; [|apply exponential_draw; [rewrite Hz; apply Qle_refl|exact Hu|exact Hg]].
    unfold ret. f_equal. rewrite Hz. unfold py_int.
    assert (E : (inject_Z 0 * u == 0)%Q) by (unfold inject_Z; ring).
    destruct (Qle_bool 0 (inject_Z 0 * u)) eqn:Hb.
    + rewrite E. reflexivity.
    + rewrite E. reflexivity.
  - intros fuel c g Hn. unfold run. apply bind_raise. cbn [run_loop].
    apply bind_raise. unfold get_noncds_span. apply bind_raise.
    apply exponential_neg, inject_Z_neg, Hn.
  - intros fuel c u1 u2 t Hi Hn Hg Hu1 Hu2. unfold run. apply bind_raise. cbn [run_loop].
    erewrite bind_ok; [|unfold get_noncds_span; erewrite bind_ok;
                        [reflexivity|apply exponential_draw; [apply inject_Z_nonneg, Hn|exact Hu1|reflexivity]]].
    cbv beta. apply bind_raise. unfold get_cds_spans.
    erewrite bind_ok; [|apply exponential_draw; [apply inject_Z_nonneg, Hg|exact Hu2|reflexivity]].
    apply bind_raise. unfold py_div. rewrite Hi. reflexivity.
  - intros fuel c Hi Hn. unfold run. apply bind_stuck. cbn [run_loop].
    apply bind_stuck. unfold get_noncds_span. apply bind_stuck.
    apply exponential_empty; [apply inject_Z_nonneg, Hn|reflexivity].
Qed.

(** ** Witnesses *)

Lemma mutations_first_seen_by_name_witness :
  exists m, build_chromosome_explicit [((0, 1000), Some sample_elem); ((2000, 3000), Some sample_elem_dup)]
              = Some m /\
    bc_mutations m = first_seen (mutation_names [sample_elem; sample_elem_dup]) /\
    bc_mutations m = ["m2"; "m1"].
Proof.
  destruct (mutations_first_seen_by_name
              [((0, 1000), Some sample_elem); ((2000, 3000), Some sample_elem_dup)]
              [sample_elem; sample_elem_dup] sample_elem sample_elem_dup sample_noncds
              ltac:(discriminate) eq_refl) as [[m [H1 [H2 _]]] _].
  exists m. split; [exact H1|]. split; [exact H2|]. rewrite H2. vm_compute. reflexivity.
Defined.

Lemma explicit_same_start_keeps_later_witness :
  exists m,
    chromosome_explicit ([] ++ ((0, 10), Some sample_elem) :: [] ++ ((0, 20), Some sample_elem_dup) :: [])
      None = Some m /\
    rows_at 0 (cm_data m) = [(0, mk_row sample_elem_dup 0 20)].
Proof.
  apply (explicit_same_start_keeps_later [] [] [] 0 10 20 sample_elem sample_elem_dup None).
  constructor.
Defined.

(** ** Random strategy: the rows tile the chromosome *)

Lemma chain_app (e : Z) (l1 l2 : Frame) :
  chain e (l1 ++ l2) <-> chain e l1 /\ chain (last_end e l1) l2.
Proof.
  revert e. induction l1 as [|[k r] l1 IH]; intros e; simpl; [tauto|].
  rewrite IH. tauto.
Qed.

Lemma last_end_app (e : Z) (l1 l2 : Frame) :
  last_end e (l1 ++ l2) = last_end (last_end e l1) l2.
Proof. revert e. induction l1 as [|[k r] l1 IH]; intros e; simpl; auto. Qed.

Lemma run_shape_snoc (idx : Z) (df : Frame) (r : Row) :
  run_shape idx df -> row_start r = idx + 1 -> row_start r <= row_end r ->
  run_shape (row_end r) (df ++ [(idx, r)]).
Proof.
  intros [Hc [Hl Hf]] Hs Hse. split; [|split].
  - apply chain_app. split; [done|]. rewrite Hl. simpl. done.
  - rewrite last_end_app, Hl. reflexivity.
  - apply Forall_app. split; [done|]. repeat constructor. exact Hse.
Qed.

Lemma enter_cds_shape (c : RandomConfig) (bound : Z) (spans : list Z) :
  forall enum idx df g idx' df' g',
  Forall (fun i => 0 <= i) spans -> frame_inv idx bound df ->
  idx + fold_right Z.add 0 spans + Z.of_nat (length spans) <= bound ->
  run_shape idx df ->
  enter_cds c enum spans idx df g = Ok (idx', df') g' ->
  run_shape idx' df' /\ exists ext, df' = df ++ ext.
Proof.
  induction spans as [|sp rest IH]; intros enum idx df g idx' df' g' Hn Hinv Hb Hs H.
  - simpl in H. unfold ret in H. injection H as <- <- _. split; [exact Hs|]. exists []. by rewrite app_nil_r.
  - simpl in H. unfold bind in H.
    destruct (choose _ g) as [ele g1| |]; try discriminate.
    inversion Hn as [|? ? Hsp Hrest]; subst.
    pose proof (sum_nonneg rest Hrest) as Hsum.
    rewrite frame_set_fresh in H by (eapply frame_inv_keys; eauto).
    assert (Hb' : idx + sp + 1 + fold_right Z.add 0 rest + Z.of_nat (length rest) <= bound).
    { cbn [fold_right length] in Hb. rewrite Nat2Z.inj_succ in Hb. lia. }
    edestruct IH as [Hs' [ext Hext]]; [exact Hrest| |exact Hb'| |exact H|].
    + apply (frame_inv_snoc idx); simpl; try lia. exact Hinv.
    + apply (run_shape_snoc idx df (mk_row ele (idx + 1) (idx + sp + 1))); simpl; [exact Hs|lia|lia].
    + split; [exact Hs'|]. exists ((idx, mk_row ele (idx + 1) (idx + sp + 1)) :: ext).
      rewrite Hext, <- app_assoc. reflexivity.
Qed.

Lemma run_loop_shape (c : RandomConfig) (fuel : nat) :
  forall idx df g df' g',
  frame_inv idx (rc_genome_size c) df -> run_shape idx df ->
  run_loop fuel c idx df g = Ok df' g' ->
  chain 0 df' /\
  Forall (fun p => row_start (snd p) <= row_end (snd p)) (removelast df') /\
  (exists pre q, df' = pre ++ [q] /\ row_script (snd q) = rc_noncds c) /\
  (exists p ext, df' = df ++ p :: ext /\ row_script (snd p) = rc_noncds c).
Proof.
  induction fuel as [|fuel IH]; intros idx df g df' g' Hinv Hs H; [discriminate|].
  simpl in H. unfold bind at 1 in H.
  destruct (get_noncds_span c g) as [span g1| |] eqn:Hspan; try discriminate.
  apply noncds_span_nonneg in Hspan.
  rewrite frame_set_fresh in H by (eapply frame_inv_keys; eauto).
  set (r0 := mk_row (rc_noncds c) (idx + 1) (Z.min (idx + 1 + span) (rc_genome_size c))) in H.
  set (df1 := df ++ [(idx, r0)]) in H.
  assert (Hinv1 : frame_inv (idx + span + 1) (rc_genome_size c) df1).
  { apply (frame_inv_snoc idx); simpl; try lia; [exact Hinv]. }
  assert (Hc1 : chain 0 df1).
  { destruct Hs as [Hc [Hl _]]. apply chain_app. split; [done|]. rewrite Hl. simpl. done. }
  unfold bind at 1 in H.
  destruct (get_cds_spans fuel c g1) as [spans g2| |] eqn:Hsp; try discriminate.
  apply cds_spans_nonneg in Hsp.
  pose proof (sum_nonneg spans Hsp) as Hsum.
  destruct (Z.ltb_spec (rc_genome_size c)
              (idx + span + 1 + fold_right Z.add 0 spans + Z.of_nat (length spans))) as [Hbr|Hbr].
  - unfold ret in H. injection H as <- _. split; [exact Hc1|]. split; [|split].
    + unfold df1. rewrite removelast_last. apply Hs.
    + exists df, (idx, r0). split; reflexivity.
    + exists (idx, r0), []. split; reflexivity.
  - assert (Hs1 : run_shape (idx + span + 1) df1).
    { replace (idx + span + 1) with (row_end r0) by (simpl; lia).
      apply run_shape_snoc; [exact Hs|reflexivity|simpl; lia]. }
    unfold bind in H.
    destruct (enter_cds c 0 spans (idx + span + 1) df1 g2) as [[idx2 df2] g3| |] eqn:He;
      try discriminate.
    pose proof (enter_cds_inv c _ spans 0 _ _ _ _ _ _ Hsp Hinv1 ltac:(lia) He) as Hinv2.
    destruct (enter_cds_shape c _ spans 0 _ _ _ _ _ _ Hsp Hinv1 ltac:(lia) Hs1 He)
      as [Hs2 [ext2 Hext2]].
    destruct (IH _ _ _ _ _ Hinv2 Hs2 H) as [Hc [Hf [Hlast [p [ext [Hext Hp]]]]]].
    split; [exact Hc|]. split; [exact Hf|]. split; [exact Hlast|].
    exists (idx, r0), (ext2 ++ p :: ext). split; [|reflexivity].
    rewrite Hext, Hext2. unfold df1. rewrite <- !app_assoc. reflexivity.
Qed.

Lemma run_shape_nil : run_shape 0 [].
Proof. split; [done|]. split; [done|constructor]. Qed.

Lemma run_result (fuel : nat) (c : RandomConfig) (g g' : Rng) (df : Frame) :
  run fuel c g = Ok df g' ->
  exists df0, run_loop fuel c 0 [] g = Ok df0 g' /\ df = df0.
Proof.
  unfold run, bind.
  destruct (run_loop fuel c 0 [] g) as [df0 g1| |] eqn:H; try discriminate.
  unfold ret. intros E. injection E as <- <-. exists df0. split; [reflexivity|].
  apply run_loop_inv in H as [idx [_ [Hs _]]]; [|apply frame_inv_nil].
  by apply sort_by_sorted.
Qed.

(** X1: a completed random run tiles the chromosome without gaps: the
    first row is labelled 0 and starts at 1, and each following row is
    labelled by the end of the row before it and starts one past it. *)
Theorem random_rows_contiguous (fuel : nat) (c : RandomConfig) (g g' : Rng) (df : Frame) :
  run fuel c g = Ok df g' -> chain 0 df.
Proof.
  intros H. apply run_result in H as [df0 [H ->]].
  eapply run_loop_shape; [apply frame_inv_nil|apply run_shape_nil|exact H].
Qed.

(** X2: a completed random run starts and ends with a row of the
    non-coding element type, and every row but the last has
    [start <= end] (the last, clipped at [genome_size - 1], may not). *)
Theorem random_rows_noncds_ends (fuel : nat) (c : RandomConfig) (g g' : Rng) (df : Frame) :
  run fuel c g = Ok df g' ->
  (exists p t, df = p :: t /\ row_script (snd p) = rc_noncds c) /\
  (exists pre q, df = pre ++ [q] /\ row_script (snd q) = rc_noncds c) /\
  Forall (fun p => row_start (snd p) <= row_end (snd p)) (removelast df).
Proof.
  intros H. apply run_result in H as [df0 [H ->]].
  destruct (run_loop_shape c fuel 0 [] g df0 g' (frame_inv_nil _) run_shape_nil H)
    as [_ [Hf [Hl [p [ext [Hext Hp]]]]]].
  split; [|split; [exact Hl|exact Hf]].
  exists p, ext. split; [exact Hext|exact Hp].
Qed.

Lemma random_rows_contiguous_witness : chain 0 sample_random_rows.
Proof.
  apply (random_rows_contiguous 10 sample_random_config sample_rng (exp_stream [])).
  vm_compute. reflexivity.
Defined.

Lemma random_rows_noncds_ends_witness :
  Forall (fun p => row_start (snd p) <= row_end (snd p)) (removelast sample_random_rows).
Proof.
  apply (random_rows_noncds_ends 10 sample_random_config sample_rng (exp_stream [])).
  vm_compute. reflexivity.
Defined.

(** ** Explicit strategy: one row per start, in ascending order *)

Lemma ins_by_perm {A} (key : A -> Z) (x : A) (l : list A) : ins_by key x l ≡ₚ x :: l.
Proof.
  induction l as [|y l IH]; simpl; [done|].
  destruct (Z.leb (key x) (key y)); [done|].
  rewrite IH. constructor.
Qed.

Lemma sort_by_perm {A} (key : A -> Z) (l : list A) : sort_by key l ≡ₚ l.
Proof. induction l as [|x l IH]; simpl; [done|]. by rewrite ins_by_perm, IH. Qed.

Lemma ins_by_sorted {A} (key : A -> Z) (x : A) (l : list A) :
  StronglySorted (fun p q => key p <= key q) l ->
  StronglySorted (fun p q => key p <= key q) (ins_by key x l).
Proof.
  induction l as [|y l IH]; intros Hs; simpl; [repeat constructor|].
  inversion Hs as [|? ? Hs' Hf]; subst.
  destruct (Z.leb_spec (key x) (key y)) as [Hxy|Hxy].
  - constructor; [exact Hs|]. constructor; [exact Hxy|].
    eapply Forall_impl; [exact Hf|]. simpl. lia.
  - constructor; [by apply IH|]. apply ins_by_Forall; [lia|exact Hf].
Qed.

Lemma sort_by_sorted_le {A} (key : A -> Z) (l : list A) :
  StronglySorted (fun p q => key p <= key q) (sort_by key l).
Proof. induction l as [|x l IH]; simpl; [constructor|]. by apply ins_by_sorted. Qed.

Lemma frame_set_sorted (k : Z) (r : Row) (df : Frame) :
  StronglySorted (fun p q => fst p < fst q) df -> Forall (fun p => fst p <= k) df ->
  StronglySorted (fun p q => fst p < fst q) (frame_set k r df).
Proof.
  induction df as [|[k' r'] t IH]; intros Hs Hf; simpl; [repeat constructor|].
  inversion Hs as [|? ? Hs' Ht]; inversion Hf as [|? ? Hk Hft]; subst. simpl in Hk.
  destruct (Z.eqb_spec k' k) as [->|Hne].
  - constructor; [exact Hs'|exact Ht].
  - constructor; [by apply IH|]. apply frame_set_Forall; [exact Ht|simpl; lia].
Qed.

Lemma frame_set_keys (k k' : Z) (r : Row) (df : Frame) :
  (In k' (map fst df) \/ k' = k) -> In k' (map fst (frame_set k r df)).
Proof.
  induction df as [|[k0 r0] t IH]; simpl; intros H.
  - destruct H as [[]| ->]. left; reflexivity.
  - destruct (Z.eqb_spec k0 k) as [->|Hne]; simpl.
    + destruct H as [[H|H]|H]; auto.
    + destruct H as [[H|H]|H]; auto.
Qed.

Definition explicit_step (acc : Frame) (x : (Z * Z) * option ElementType) : Frame :=
  let '((start, end_), v) := x in
  match v with
  | Some e => frame_set start (mk_row e start end_) acc
  | None => acc
  end.

Lemma explicit_fill_fold (data : ExplicitData) (df : Frame) :
  explicit_fill data df = fold_left explicit_step (sort_by (fun p => fst (fst p)) data) df.
Proof. reflexivity. Qed.

Lemma fill_sorted (l : ExplicitData) (df : Frame) :
  StronglySorted (fun p q => fst (fst p) <= fst (fst q)) l ->
  StronglySorted (fun p q => fst p < fst q) df ->
  Forall (fun p => Forall (fun x => fst p <= fst (fst x)) l) df ->
  StronglySorted (fun p q => fst p < fst q) (fold_left explicit_step l df).
Proof.
  revert df. induction l as [|[[st en] v] l IH]; intros df Hl Hs Hf; simpl; [exact Hs|].
  inversion Hl as [|? ? Hl' Hx]; subst.
  apply IH; [exact Hl'| |].
  - destruct v as [e|]; [|exact Hs]. apply frame_set_sorted; [exact Hs|].
    eapply Forall_impl; [exact Hf|]. intros p Hp. inversion Hp; subst. done.
  - destruct v as [e|].
    + apply frame_set_Forall; [|exact Hx].
      eapply Forall_impl; [exact Hf|]. intros p Hp. inversion Hp; subst. done.
    + eapply Forall_impl; [exact Hf|]. intros p Hp. inversion Hp; subst. done.
Qed.

Lemma fill_Forall (P : Z * Row -> Prop) (l : ExplicitData) (df : Frame) :
  Forall P df ->
  (forall st en e, In ((st, en), Some e) l -> P (st, mk_row e st en)) ->
  Forall P (fold_left explicit_step l df).
Proof.
  revert df. induction l as [|[[st en] v] l IH]; intros df Hf Hl; simpl; [exact Hf|].
  apply IH; [|intros; apply Hl; by right].
  destruct v as [e|]; [|exact Hf]. apply frame_set_Forall; [exact Hf|]. apply Hl. by left.
Qed.

Lemma fill_keys_mono (l : ExplicitData) (df : Frame) (k : Z) :
  In k (map fst df) -> In k (map fst (fold_left explicit_step l df)).
Proof.
  revert df. induction l as [|[[st en] v] l IH]; intros df H; simpl; [exact H|].
  apply IH. destruct v; [|exact H]. apply frame_set_keys. by left.
Qed.

Lemma fill_keys (l : ExplicitData) (df : Frame) (st en : Z) (e : ElementType) :
  In ((st, en), Some e) l -> In st (map fst (fold_left explicit_step l df)).
Proof.
  revert df. induction l as [|[[st' en'] v] l IH]; intros df H; simpl; [destruct H|].
  destruct H as [H|H].
  - injection H as -> -> ->. apply fill_keys_mono. apply frame_set_keys. by right.
  - by apply IH.
Qed.

Lemma In_sort_by {A} (key : A -> Z) (l : list A) (x : A) : In x (sort_by key l) <-> In x l.
Proof. rewrite <- !list_elem_of_In. by rewrite sort_by_perm. Qed.

(** X3: the explicit strategy stores one row per distinct start of the
    dict's non-[None] entries, in strictly ascending start order; each
    row is labelled by its start and built from an entry of the dict with
    that start. *)
Theorem explicit_rows_from_entries (data : ExplicitData) (genome_size : option Z)
  (m : ChromosomeModel) :
  chromosome_explicit data genome_size = Some m ->
  StronglySorted (fun p q => fst p < fst q) (cm_data m) /\
  Forall (fun p => exists en e, In ((fst p, en), Some e) data /\ snd p = mk_row e (fst p) en)
    (cm_data m) /\
  (forall st en e, In ((st, en), Some e) data -> In st (map fst (cm_data m))).
Proof.
  intros H.
  assert (Hd : cm_data m = explicit_fill data []).
  { unfold chromosome_explicit in H.
    destruct (match genome_size with Some g => Some g | None => _ end); [|discriminate].
    by injection H as <-. }
  rewrite Hd, explicit_fill_fold. split; [|split].
  - apply fill_sorted; [apply sort_by_sorted_le|constructor|constructor].
  - apply fill_Forall; [constructor|]. intros st en e Hin.
    exists en, e. split; [|reflexivity]. by apply In_sort_by in Hin.
  - intros st en e Hin. eapply fill_keys. apply In_sort_by. exact Hin.
Qed.

Lemma explicit_rows_from_entries_witness :
  StronglySorted (fun p q => fst p < fst q)
    (explicit_fill [((5, 20), Some sample_elem); ((0, 10), Some sample_noncds); ((7, 9), None)] []).
Proof.
  exact (proj1 (explicit_rows_from_entries
    [((5, 20), Some sample_elem); ((0, 10), Some sample_noncds); ((7, 9), None)] None
    {| cm_genome_size := 21;
       cm_data := explicit_fill [((5, 20), Some sample_elem); ((0, 10), Some sample_noncds);
                                 ((7, 9), None)] [] |} eq_refl)).
Defined.

(** ** Span sums of [get_cds_spans] *)

Lemma fold_right_add_acc (a : Z) (l : list Z) :
  fold_right Z.add a l = a + fold_right Z.add 0 l.
Proof. induction l as [|x l IH]; simpl; lia. Qed.

Lemma fix_last_sum (cds : Z) (l l' : list Z) :
  fix_last cds l = Some l' -> fold_right Z.add 0 l' = cds.
Proof.
  destruct l as [|x l]; [discriminate|]. intros H. injection H as <-.
  rewrite fold_right_app. cbn [fold_right]. rewrite fold_right_add_acc. lia.
Qed.

Lemma split_loop_sum (fuel : nat) (n cds : Z) (g g' : Rng) (splits : list Z) :
  split_loop fuel n cds g = Ok splits g' -> fold_right Z.add 0 splits = cds.
Proof.
  revert g. induction fuel as [|fuel IH]; intros g H; [discriminate|].
  simpl in H. unfold bind at 1 in H.
  destruct (dirichlet (n * 2 - 1) g) as [ws g1| |]; try discriminate.
  destruct (fix_last cds _) as [l|] eqn:Hf; [|discriminate].
  destruct (forallb (fun i => Z.ltb 3 i) l).
  - injection H as <- _. exact (fix_last_sum _ _ _ Hf).
  - exact (IH g1 H).
Qed.

(** X5: [get_cds_spans] returns spans that add up to the CDS span it drew:
    [int(gene_size * u)] for the first standard exponential draw [u]. *)
Theorem cds_spans_sum (fuel : nat) (c : RandomConfig) (g g' : Rng) (spans : list Z) :
  get_cds_spans fuel c g = Ok spans g' ->
  exists u t, exps g = u :: t /\
    fold_right Z.add 0 spans = py_int (inject_Z (rc_gene_size c) * u)%Q.
Proof.
  intros H. unfold get_cds_spans, bind at 1 in H.
  destruct (exponential _ g) as [x g1| |] eqn:He; try discriminate.
  assert (Hx : exists u t, exps g = u :: t /\ x = (inject_Z (rc_gene_size c) * u)%Q).
  { unfold exponential in He. destruct (Qlt_le_dec _ 0); [discriminate|].
    destruct (exps g) as [|u t]; [discriminate|].
    destruct (Qle_bool 0 u); [|discriminate]. injection He as <- _. by exists u, t. }
  destruct Hx as (u & t & Hg & ->). exists u, t. split; [exact Hg|].
  unfold bind at 1, py_div in H.
  destruct (Z.eqb (rc_intron_scale c) 0); [discriminate|]. unfold ret in H.
  unfold bind in H. destruct (poisson _ g1) as [k g2| |]; try discriminate.
  destruct (negb (Z.eqb k 0)).
  - exact (split_loop_sum _ _ _ _ _ _ H).
  - injection H as <- _. simpl. lia.
Qed.

Lemma cds_spans_sum_witness :
  exists u t, exps sample_split_rng = u :: t /\
    fold_right Z.add 0 [10; 5; 5] = py_int (inject_Z (rc_gene_size sample_random_config) * u)%Q.
Proof.
  apply (cds_spans_sum 1 sample_random_config sample_split_rng empty_rng [10; 5; 5]).
  vm_compute. reflexivity.
Defined.

(** ** Terminators of [clean_scripts] *)

Lemma string_rev_app_app (a b acc : string) :
  String.rev_app (a +:+ b) acc = String.rev_app b (String.rev_app a acc).
Proof.
  revert acc. induction a as [|x a IH]; intros acc; [reflexivity|].
  change (String.rev_app (a +:+ b) (String x acc) =
          String.rev_app b (String.rev_app a (String x acc))).
  apply IH.
Qed.

Lemma ends_in_snoc (c : Ascii.ascii) (t : string) : ends_in c (t +:+ String c EmptyString) = true.
Proof.
  unfold ends_in, String.rev. rewrite string_rev_app_app. cbn [String.rev_app].
  by apply bool_decide_eq_true.
Qed.

Lemma join_snoc (c : Ascii.ascii) (sep : string) (l : list string) :
  l <> [] -> Forall (fun s => exists t, s = t +:+ String c EmptyString) l ->
  exists t, Format.join sep l = t +:+ String c EmptyString.
Proof.
  induction l as [|x l IH]; [congruence|]. intros _ Hf.
  apply Forall_cons in Hf as [[tx ->] Hl].
  destruct l as [|y l]; [by exists tx|].
  destruct (IH ltac:(discriminate) Hl) as [t Ht].
  exists (tx +:+ String c EmptyString +:+ sep +:+ t).
  change (Format.join sep ((tx +:+ String c EmptyString) :: y :: l)) with
    ((tx +:+ String c EmptyString) +:+ sep +:+ Format.join sep (y :: l)).
  rewrite Ht, !string_app_assoc. reflexivity.
Qed.

(** X6: [clean_scripts] returns a string whose last character is [;] or [}]
    for every input but the empty statement list. *)
Theorem clean_scripts_terminated (sc : Format.Scripts) :
  sc <> Format.Stmts [] ->
  ends_in ";" (Format.clean_scripts sc) = true \/ ends_in "}" (Format.clean_scripts sc) = true.
Proof.
  intros Hne. destruct sc as [s|l].
  - unfold Format.clean_scripts.
    destruct (Format.ends_with_brace (Format.strip Format.is_space s)) eqn:E.
    + right. exact E.
    + left. apply ends_in_snoc.
  - left. unfold Format.clean_scripts. destruct l as [|x l]; [congruence|].
    destruct (join_snoc ";" "
    " (map (fun i => Format.strip (Format.is_char ";") i +:+ ";") (x :: l)))
      as [t ->]; [discriminate| |apply ends_in_snoc].
    apply List.Forall_forall. intros s Hs. apply in_map_iff in Hs as (i & <- & _).
    eexists. reflexivity.
Qed.

Lemma clean_scripts_terminated_witness :
  ends_in ";" (Format.clean_scripts (Format.Stmts ["a = 1"; "b = 2;"])) = true \/
  ends_in "}" (Format.clean_scripts (Format.Stmts ["a = 1"; "b = 2;"])) = true.
Proof. apply clean_scripts_terminated. discriminate. Defined.

(** ** Comments of events *)

Lemma lstrip_slashes (n : nat) (c : string) :
  Format.lstrip (Format.is_char "/") (slashes n +:+ c) = Format.lstrip (Format.is_char "/") c.
Proof.
  induction n as [|n IH]; [reflexivity|].
  change (slashes (S n) +:+ c) with (String "/" (slashes n +:+ c)).
  exact IH.
Qed.

Lemma slashes_app_nonempty (n : nat) (c : string) : c <> "" -> slashes n +:+ c <> "".
Proof.
  intros Hc. destruct n as [|n]; [exact Hc|].
  change (String "/" (slashes n +:+ c) <> ""). discriminate.
Qed.

(** X7: leading [/] characters of a non-empty comment do not change how
    [format_event_dicts_to_strings] renders it: [c.lstrip("//")] removes them
    all before ["// "] is put in front. *)
Theorem format_comment_leading_slashes (n : nat) (c : string) :
  c <> "" -> Format.format_comment (slashes n +:+ c) = Format.format_comment c.
Proof.
  intros Hc. pose proof (slashes_app_nonempty n c Hc) as Hn.
  unfold Format.format_comment.
  destruct c as [|x t]; [congruence|].
  destruct (slashes n +:+ String x t) as [|y u] eqn:E; [congruence|].
  rewrite <- E, lstrip_slashes. reflexivity.
Qed.

Lemma format_comment_leading_slashes_witness :
  Format.format_comment (slashes 2 +:+ "end of sim") = Format.format_comment "end of sim".
Proof. apply format_comment_leading_slashes. discriminate. Defined.

(** ** Fitness callbacks and their switches *)

Section CallbackLists.
Variable T : Type.
Variable step : CallbackState -> T -> CallbackState.
Variable name_of : T -> string.
Hypothesis step_eq : forall st x,
  step st x =
    {| cs_idx := S (cs_idx st);
       cs_fitness := cs_fitness st ++
         [{| fe_idx := Some (sidx (S (cs_idx st))); fe_mutation := name_of x;
             fe_scripts := "return 1 + mut.selectionCoeff";
             fe_comment := "gametophytes have no dominance effects" |}];
       cs_activate := cs_activate st ++ [sidx (S (cs_idx st)) +:+ ".active = 1;"];
       cs_deactivate := cs_deactivate st ++ [sidx (S (cs_idx st)) +:+ ".active = 0;"] |}.

Lemma callbacks_fold_lists (muts : list T) (st : CallbackState) :
  map fe_mutation (cs_fitness (fold_left step muts st)) =
    map fe_mutation (cs_fitness st) ++ map name_of muts /\
  cs_activate (fold_left step muts st) =
    cs_activate st ++ map (fun j => sidx j +:+ ".active = 1;") (seq (S (cs_idx st)) (length muts)) /\
  cs_deactivate (fold_left step muts st) =
    cs_deactivate st ++ map (fun j => sidx j +:+ ".active = 0;") (seq (S (cs_idx st)) (length muts)).
Proof.
  revert st. induction muts as [|x muts IH]; intros st; simpl.
  - by rewrite !app_nil_r.
  - destruct (IH (step st x)) as (H1 & H2 & H3).
    assert (Hi : cs_idx (step st x) = S (cs_idx st)) by (rewrite step_eq; done).
    assert (Hm : map fe_mutation (cs_fitness (step st x)) =
                 map fe_mutation (cs_fitness st) ++ [name_of x])
      by (rewrite step_eq; simpl; by rewrite map_app).
    assert (Ha : cs_activate (step st x) = cs_activate st ++ [sidx (S (cs_idx st)) +:+ ".active = 1;"])
      by (rewrite step_eq; done).
    assert (Hd : cs_deactivate (step st x) = cs_deactivate st ++ [sidx (S (cs_idx st)) +:+ ".active = 0;"])
      by (rewrite step_eq; done).
    rewrite Hi in H2, H3. rewrite Hm in H1. rewrite Ha in H2. rewrite Hd in H3.
    rewrite H1, H2, H3, <- !app_assoc. done.
Qed.
End CallbackLists.

(** X8: the callback loops of [Bryophyte._add_shared_mode_scripts] and of the
    Pteridophyte modes add one fitness callback per mutation, in order, for
    that mutation's name and with ids [s5, s6, ...]; in the Bryophyte loop
    the activate and deactivate lists switch exactly these ids, in the same
    order. *)
Theorem callback_lists_follow_mutations (muts : list MutationType) (names : list string) :
  map fe_mutation (cs_fitness (bryo_shared_callbacks muts)) = map mut_name muts /\
  map fe_idx (cs_fitness (bryo_shared_callbacks muts)) =
    map (fun j => Some (sidx j)) (seq 5 (length muts)) /\
  cs_activate (bryo_shared_callbacks muts) =
    map (fun j => sidx j +:+ ".active = 1;") (seq 5 (length muts)) /\
  cs_deactivate (bryo_shared_callbacks muts) =
    map (fun j => sidx j +:+ ".active = 0;") (seq 5 (length muts)) /\
  map fe_mutation (cs_fitness (pter_callbacks names)) = names /\
  map fe_idx (cs_fitness (pter_callbacks names)) =
    map (fun j => Some (sidx j)) (seq 5 (length names)).
Proof.
  unfold bryo_shared_callbacks, pter_callbacks.
  destruct (callbacks_fold_lists _ bryo_callback_step mut_name ltac:(reflexivity)
              muts init_callbacks) as (B1 & B2 & B3).
  destruct (callbacks_fold_ids _ bryo_callback_step mut_name ltac:(reflexivity)
              muts init_callbacks) as [_ B4].
  destruct (callbacks_fold_lists _ pter_callback_step (fun s => s) ltac:(reflexivity)
              names init_callbacks) as (P1 & _ & _).
  destruct (callbacks_fold_ids _ pter_callback_step (fun s => s) ltac:(reflexivity)
              names init_callbacks) as [_ P4].
  simpl in B1, B2, B3, B4, P1, P4.
  rewrite map_id in P1. repeat split; assumption.
Qed.

(** ** Female-to-male ratios *)

(** X9: with non-negative parts and a non-zero sum, the Pteridophyte and the
    Bryophyte conversions of a pair [(a, b)] give the same fraction
    [a / (a + b)], which lies in [0, 1]. *)
Theorem female_ratio_in_unit (a b : Q) :
  (0 <= a)%Q -> (0 <= b)%Q -> ~ (a + b == 0)%Q ->
  exists r r', pter_ratio (a, b) = inr r /\ bryo_gam_ratio [a; b] = inr r' /\
    (r == r')%Q /\ (0 <= r <= 1)%Q.
Proof.
  intros Ha Hb Hn.
  assert (Hp : (0 < a + b)%Q).
  { destruct (Qle_lt_or_eq 0 (a + b)) as [H|H]; [lra|exact H|].
    exfalso. apply Hn. by apply Qeq_sym. }
  unfold pter_ratio, bryo_gam_ratio. cbn [fst snd Qsum fold_right].
  destruct (Qeq_bool (a + b) 0) eqn:E1.
  { apply Qeq_bool_eq in E1. contradiction. }
  destruct (Qeq_bool (a + (b + 0)) 0) eqn:E2.
  { apply Qeq_bool_eq in E2. rewrite Qplus_0_r in E2. contradiction. }
  exists (a / (a + b))%Q, (a / (a + (b + 0)))%Q.
  split; [reflexivity|]. split; [reflexivity|]. split.
  - rewrite Qplus_0_r. reflexivity.
  - split.
    + apply Qle_shift_div_l; [exact Hp|]. lra.
    + apply Qle_shift_div_r; [exact Hp|]. lra.
Qed.

Lemma female_ratio_in_unit_witness :
  exists r r', pter_ratio (2%Q, 1%Q) = inr r /\ bryo_gam_ratio [2%Q; 1%Q] = inr r' /\
    (r == r')%Q /\ (0 <= r <= 1)%Q.
Proof.
  apply female_ratio_in_unit; [lra|lra|].
  intros H. vm_compute in H. discriminate.
Defined.

(** ** Random strategy: genes *)

Lemma choose_in_pool (p : Pool) (g g' : Rng) (e : ElementType) :
  choose p g = Ok e g' -> in_pool p e.
Proof.
  destruct p as [x|es]; simpl.
  - unfold ret. intros H. by injection H as <- _.
  - unfold choice. destruct es as [|y es]; [discriminate|].
    destruct (choices g) as [|i t]; [discriminate|].
    destruct ((y :: es) !! i) as [x|] eqn:Hi; [|discriminate].
    intros H. injection H as <- _. apply list_elem_of_In. by eapply list_elem_of_lookup_2.
Qed.

Lemma poisson_nonneg (lam : Q) (g g' : Rng) (k : Z) : poisson lam g = Ok k g' -> 0 <= k.
Proof.
  unfold poisson. destruct (Qlt_le_dec lam 0); [discriminate|].
  destruct (Qeq_bool lam 0). { intros H. injection H as <- _. lia. }
  destruct (poissons g) as [|x t]; [discriminate|].
  destruct (Z.leb_spec 0 x) as [Hx|Hx]; [|discriminate]. intros H. injection H as <- _. lia.
Qed.

Lemma cds_spans_odd (fuel : nat) (c : RandomConfig) (g g' : Rng) (spans : list Z) :
  get_cds_spans fuel c g = Ok spans g' -> Nat.Odd (length spans).
Proof.
  unfold get_cds_spans, bind at 1.
  destruct (exponential _ g) as [x g1| |]; try discriminate.
  unfold bind at 1, py_div.
  destruct (Z.eqb (rc_intron_scale c) 0); [discriminate|]. unfold ret.
  unfold bind. destruct (poisson _ g1) as [k g2| |] eqn:Hk; try discriminate.
  apply poisson_nonneg in Hk.
  destruct (Z.eqb_spec k 0) as [_|Hk0]; simpl.
  - intros H. injection H as <- _. exists 0%nat. reflexivity.
  - intros H. rewrite (split_loop_length _ _ _ _ _ _ H). exists (Z.to_nat (k - 1)). lia.
Qed.

Lemma enter_cds_gene (c : RandomConfig) (bound : Z) (spans : list Z) :
  forall enum idx df g idx' df' g',
  Forall (fun i => 0 <= i) spans -> frame_inv idx bound df ->
  idx + fold_right Z.add 0 spans + Z.of_nat (length spans) <= bound ->
  enter_cds c enum spans idx df g = Ok (idx', df') g' ->
  exists ext, df' = df ++ ext /\ gene_from c enum ext /\ length ext = length spans.
Proof.
  induction spans as [|sp rest IH]; intros enum idx df g idx' df' g' Hn Hinv Hb H.
  - simpl in H. unfold ret in H. injection H as <- <- _. exists []. by rewrite app_nil_r.
  - simpl in H. unfold bind in H.
    destruct (choose _ g) as [ele g1| |] eqn:Hc; try discriminate.
    apply choose_in_pool in Hc.
    inversion Hn as [|? ? Hsp Hrest]; subst.
    pose proof (sum_nonneg rest Hrest) as Hsum.
    rewrite frame_set_fresh in H by (eapply frame_inv_keys; eauto).
    assert (Hb' : idx + sp + 1 + fold_right Z.add 0 rest + Z.of_nat (length rest) <= bound).
    { cbn [fold_right length] in Hb. rewrite Nat2Z.inj_succ in Hb. lia. }
    edestruct IH as [ext [Hext [Hg Hl]]]; [exact Hrest| |exact Hb'|exact H|].
    + apply (frame_inv_snoc idx); simpl; try lia. exact Hinv.
    + exists ((idx, mk_row ele (idx + 1) (idx + sp + 1)) :: ext). split; [|split].
      * rewrite Hext, <- app_assoc. reflexivity.
      * split; [exact Hc|exact Hg].
      * simpl. by rewrite Hl.
Qed.

Lemma run_loop_layout (c : RandomConfig) (fuel : nat) :
  forall idx df g df' g',
  frame_inv idx (rc_genome_size c) df ->
  run_loop fuel c idx df g = Ok df' g' ->
  exists ext, df' = df ++ ext /\ layout c ext.
Proof.
  induction fuel as [|fuel IH]; intros idx df g df' g' Hinv H; [discriminate|].
  simpl in H. unfold bind at 1 in H.
  destruct (get_noncds_span c g) as [span g1| |] eqn:Hspan; try discriminate.
  apply noncds_span_nonneg in Hspan.
  rewrite frame_set_fresh in H by (eapply frame_inv_keys; eauto).
  set (r0 := mk_row (rc_noncds c) (idx + 1) (Z.min (idx + 1 + span) (rc_genome_size c))) in H.
  set (df1 := df ++ [(idx, r0)]) in H.
  assert (Hinv1 : frame_inv (idx + span + 1) (rc_genome_size c) df1).
  { apply (frame_inv_snoc idx); simpl; try lia; [exact Hinv]. }
  unfold bind at 1 in H.
  destruct (get_cds_spans fuel c g1) as [spans g2| |] eqn:Hsp; try discriminate.
  pose proof (cds_spans_odd _ _ _ _ _ Hsp) as Hodd.
  apply cds_spans_nonneg in Hsp.
  pose proof (sum_nonneg spans Hsp) as Hsum.
  destruct (Z.ltb_spec (rc_genome_size c)
              (idx + span + 1 + fold_right Z.add 0 spans + Z.of_nat (length spans))) as [Hbr|Hbr].
  - unfold ret in H. injection H as <- _. exists [(idx, r0)]. split; [reflexivity|].
    by apply layout_end.
  - unfold bind in H.
    destruct (enter_cds c 0 spans (idx + span + 1) df1 g2) as [[idx2 df2] g3| |] eqn:He;
      try discriminate.
    pose proof (enter_cds_inv c _ spans 0 _ _ _ _ _ _ Hsp Hinv1 ltac:(lia) He) as Hinv2.
    destruct (enter_cds_gene c _ spans 0 _ _ _ _ _ _ Hsp Hinv1 ltac:(lia) He)
      as [ext2 [Hext2 [Hg Hl]]].
    destruct (IH _ _ _ _ _ Hinv2 H) as [ext [Hext Hlay]].
    exists ((idx, r0) :: ext2 ++ ext). split.
    + rewrite Hext, Hext2. unfold df1. rewrite <- !app_assoc. reflexivity.
    + apply layout_gene; [reflexivity|exact Hg|by rewrite Hl|exact Hlay].
Qed.

(** X4: a completed random run lays out non-coding rows, each but the last
    followed by one gene: an odd number of segments whose even-numbered
    ones come from the exon pool and odd-numbered ones from the intron pool. *)
Theorem random_genes_alternate (fuel : nat) (c : RandomConfig) (g g' : Rng) (df : Frame) :
  run fuel c g = Ok df g' -> layout c df.
Proof.
  intros H. apply run_result in H as [df0 [H ->]].
  destruct (run_loop_layout c fuel 0 [] g df0 g' (frame_inv_nil _) H) as [ext [-> Hl]].
  exact Hl.
Qed.

Lemma random_genes_alternate_witness : layout sample_random_config sample_random_rows.
Proof.
  apply (random_genes_alternate 10 sample_random_config sample_rng (exp_stream [])).
  vm_compute. reflexivity.
Defined.
